(** * A cost-annotated interpreter: the execution engine of [state.cpp]

    This development embeds [State::exec_function], [State::exec_program],
    [State::update_cost_log], [State::inst_log_to_string] and the
    [CostStack] bookkeeping of [src/state.cpp], together with the opcode
    set and the cost table of [src/opcode.h], and proves the properties
    of the specification about them.

    Conventions of the embedding.
    - A [double] cost is a rational ([Q]).  The engine is written first
      with exact additions, sums compared with [==]: one addition of
      doubles is the exact addition up to the rounding of its result.
      [Rounded] is the same engine with every operation on doubles
      rounded, and [binary64] is the rounding of the source's doubles;
      what depends on the order of the additions is stated there.
    - [uint64_t] values are integers ([Z]); the engine only moves them.
    - [int] counters are integers with the signed overflow of [++] made
      explicit: it is undefined behaviour and ends the run in [Undefined].
    - [CostStack*] is an index into a store of accumulators kept in the
      state, so that a node reached through its parent's callee list and
      through the activation's own pointer is one shared object.
    - The classes declared outside the two source files (statements,
      functions, the program, the memory) are an interface, [Graph]; the
      engine is written against it, as the source is. *)

From Stdlib Require Import ZArith QArith Lqa Lia String Sorted.
From Stdlib Require Import PrimFloat FloatOps SpecFloat.
From stdpp Require Import base tactics option list gmap strings.

Local Open Scope string_scope.

(** ** [opcode.h] *)

Inductive Opcode : Type :=
  | Ret | BrUncond | BrCond | Switch
  | Malloc | Free | Load | Store
  | Bop
  | Sum
  | Uop
  | Select
  | Call
  | Assert
  | Read | Write.

#[global] Instance Opcode_eq_dec : EqDecision Opcode.
Proof. solve_decision. Defined.

(** The enumerators in declaration order; [LEN_OPCODE] closes the enum. *)
Definition all_opcodes : list Opcode :=
  [Ret; BrUncond; BrCond; Switch; Malloc; Free; Load; Store;
   Bop; Sum; Uop; Select; Call; Assert; Read; Write].

Definition LEN_OPCODE : nat := length all_opcodes.

Module Cost.
Definition RET : Q := 1.
Definition BRUNCOND : Q := 1.
Definition BRCOND_TRUE : Q := 6.
Definition BRCOND_FALSE : Q := 1.
Definition SWITCH : Q := 12 # 10.

Definition MALLOC : Q := 16.
Definition FREE : Q := 16.
Definition STACK : Q := 6.
Definition HEAP : Q := 12.
Definition ALOAD : Q := 1.
Definition WAIT_STACK : Q := 10.
Definition WAIT_HEAP : Q := 16.

Definition MULDIV : Q := 1.
Definition LOGICAL : Q := 4.
Definition ADDSUB : Q := 5.

Definition SUM : Q := 52 # 10.

Definition UOP : Q := 1.

Definition COMP : Q := 1.

Definition TERNARY : Q := 12 # 10.

Definition CALL : Q := 2.
Definition PER_ARG : Q := 1.

Definition ASSERT : Q := 0.
End Cost.

(** An array indexed by the opcode, [a[i] = x]. *)
Definition array_set {A : Type} (a : Opcode -> A) (i : Opcode) (x : A)
    : Opcode -> A :=
  fun o => if decide (o = i) then x else a o.

(** Largest value of a C++ [int]. *)
Definition INT_MAX : Z := 2147483647.

(** ** The register file *)

(** Modelled from the spec: the class [RegFile] is declared outside the
    source files at hand.  It is "a mapping from register identifier to
    unsigned 64-bit value, plus an argument-count marker"; [write_reg]
    stores a value under one register, [set_nargs] sets the marker, and
    assignment copies the whole file. *)
Record RegFile : Type := mkRegFile {
  regs : gmap string Z;
  nargs : Z
}.

Definition RegFile_new : RegFile := mkRegFile ∅ 0%Z.

Definition write_reg (r : string) (v : Z) (rf : RegFile) : RegFile :=
  mkRegFile (<[r := v]> (regs rf)) (nargs rf).

Definition set_nargs (n : Z) (rf : RegFile) : RegFile :=
  mkRegFile (regs rf) n.

(** ** [CostStack] *)

Record CostStack : Type := mkCostStack {
  fname : string;
  cost : Q;
  callees : list nat
}.

(** [CostStack::CostStack(const string&)] *)
Definition CostStack_new (name : string) : CostStack :=
  mkCostStack name 0%Q [].

(** [CostStack::add_cost] *)
Definition CostStack_add_cost (c : Q) (n : CostStack) : CostStack :=
  mkCostStack (fname n) (cost n + c)%Q (callees n).

(** [CostStack::set_callee] *)
Definition CostStack_set_callee (callee : nat) (n : CostStack) : CostStack :=
  mkCostStack (fname n) (cost n) (callees n ++ [callee]).

(** ** The collaborators *)

(** What a generic instruction's [exec] hands back: the pair of base and
    stall cost with the register file and memory it left, or the message
    of the runtime error it raised. *)
Inductive ExecResult (Memory : Type) : Type :=
  | ExecOk (inst_cost wait_cost : Q) (rf : RegFile) (mem : Memory)
  | ExecError (msg : string).
Arguments ExecOk {Memory} _ _ _ _.
Arguments ExecError {Memory} _.

(** The member functions of [Stmt] and its subclasses, of [Function], of
    [Program] and of [Memory] that [state.cpp] calls.  A nullable pointer
    result is an [option].  The accessors of the control-transfer
    statements read the current cost and the register file; [get_eval]
    reports the flag that the preceding [get_bb] computed from the same
    two. *)
Class Graph (Stmt Function Program Memory : Type) : Type := {
  get_opcode : Stmt -> Opcode;
  get_line : Stmt -> Z;
  get_next : Stmt -> option Stmt;
  get_lhs : Stmt -> string;
  (* StmtRet *)
  ret_get_val : Stmt -> Q -> RegFile -> Z * Q;
  (* StmtBrUncond *)
  bruncond_get_bb : Stmt -> string;
  (* StmtBrCond *)
  brcond_get_bb : Stmt -> Q -> RegFile -> string * Q;
  brcond_get_eval : Stmt -> Q -> RegFile -> bool;
  (* StmtSwitch *)
  switch_get_bb : Stmt -> Q -> RegFile -> string * Q;
  (* StmtCall *)
  call_get_fname : Stmt -> string;
  call_get_nargs : Stmt -> Z;
  call_setup_args : Stmt -> Q -> RegFile -> RegFile -> Q * RegFile;
  (* every other statement *)
  stmt_exec : Stmt -> Q -> RegFile -> Memory -> ExecResult Memory;
  (* Function *)
  get_fname : Function -> string;
  get_nargs : Function -> Z;
  get_first_bb : Function -> option Stmt;
  get_bb : Function -> string -> option Stmt;
  (* Program *)
  get_function : Program -> string -> option Function;
  (* Memory::Memory() *)
  Memory_new : Memory
}.

(** ** [State] *)

Record State (Program Memory : Type) : Type := mkState {
  regfile : RegFile;
  memory : Memory;
  (* the store of accumulators that CostStack pointers index *)
  nodes : list CostStack;
  main_cost : option nat;
  total_wait_cost : Q;
  cost_per_inst : Opcode -> Q;
  inst_count : Opcode -> Z;
  program : option Program;
  (* the global of error.h that names the line of the current statement *)
  error_line_num : Z
}.
Arguments mkState {Program Memory} _ _ _ _ _ _ _ _ _.
Arguments regfile {Program Memory} _.
Arguments memory {Program Memory} _.
Arguments nodes {Program Memory} _.
Arguments main_cost {Program Memory} _.
Arguments total_wait_cost {Program Memory} _.
Arguments cost_per_inst {Program Memory} _ _.
Arguments inst_count {Program Memory} _ _.
Arguments program {Program Memory} _.
Arguments error_line_num {Program Memory} _.

(** How one run of the engine ends.  [Fatal] is [invoke_runtime_error]:
    the state it carries is the one the run was aborted in, and its
    [error_line_num] is the line the error is attributed to.  [Undefined]
    stands for behaviour the language leaves undefined (a null cursor
    dereferenced, a signed counter overflowing); [OutOfFuel] is the
    model's own: the step budget ran out before the run ended. *)
Inductive Outcome (Program Memory : Type) : Type :=
  | Returned (ret : Z) (st : State Program Memory)
  | Fatal (msg : string) (st : State Program Memory)
  | Undefined
  | OutOfFuel.
Arguments Returned {Program Memory} _ _.
Arguments Fatal {Program Memory} _ _.
Arguments Undefined {Program Memory}.
Arguments OutOfFuel {Program Memory}.

(** ** The engine *)

Section Engine.
Context {Stmt Function Program Memory : Type}.
Context `{!Graph Stmt Function Program Memory}.

Abbreviation State := (State Program Memory).
Abbreviation Outcome := (Outcome Program Memory).

(** Assignments to single members of the state. *)
Definition set_regfile (rf : RegFile) (st : State) : State :=
  mkState rf (memory st) (nodes st) (main_cost st) (total_wait_cost st)
    (cost_per_inst st) (inst_count st) (program st) (error_line_num st).

Definition set_memory (mem : Memory) (st : State) : State :=
  mkState (regfile st) mem (nodes st) (main_cost st) (total_wait_cost st)
    (cost_per_inst st) (inst_count st) (program st) (error_line_num st).

Definition set_nodes (ns : list CostStack) (st : State) : State :=
  mkState (regfile st) (memory st) ns (main_cost st) (total_wait_cost st)
    (cost_per_inst st) (inst_count st) (program st) (error_line_num st).

Definition set_main_cost (p : nat) (st : State) : State :=
  mkState (regfile st) (memory st) (nodes st) (Some p) (total_wait_cost st)
    (cost_per_inst st) (inst_count st) (program st) (error_line_num st).

Definition set_error_line_num (line : Z) (st : State) : State :=
  mkState (regfile st) (memory st) (nodes st) (main_cost st)
    (total_wait_cost st) (cost_per_inst st) (inst_count st) (program st) line.

(** [State::State()]; the line global starts at whatever [error.h] gives it. *)
Definition State_new (line0 : Z) : State :=
  mkState RegFile_new Memory_new [] None 0%Q (fun _ => 0%Q) (fun _ => 0%Z) None line0.

(** [State::set_program] *)
Definition set_program (p : Program) (st : State) : State :=
  match program st with
  | None =>
      mkState (regfile st) (memory st) (nodes st) (main_cost st)
        (total_wait_cost st) (cost_per_inst st) (inst_count st) (Some p)
        (error_line_num st)
  | Some _ => st
  end.

(** [cost->get_cost()], [cost->add_cost(c)] and [parent->set_callee(cost)]
    through a pointer into the store. *)
Definition get_cost (p : nat) (st : State) : Q :=
  from_option cost 0%Q (nodes st !! p).

Definition add_cost (p : nat) (c : Q) (st : State) : State :=
  set_nodes (alter (CostStack_add_cost c) p (nodes st)) st.

Definition set_callee (p callee : nat) (st : State) : State :=
  set_nodes (alter (CostStack_set_callee callee) p (nodes st)) st.

(** [new CostStack(name)]: the fresh node and the pointer to it. *)
Definition new_CostStack (name : string) (st : State) : nat * State :=
  (length (nodes st), set_nodes (nodes st ++ [CostStack_new name]) st).

(** [State::get_cost_value]: dereferences [main_cost]. *)
Definition get_cost_value (st : State) : option Q :=
  match main_cost st with
  | Some p => Some (get_cost p st)
  | None => None
  end.

(** [State::get_total_wait_cost] *)
Definition get_total_wait_cost (st : State) : Q := total_wait_cost st.

(** [State::update_cost_log].  [None]: [inst_count[opcode]++] overflows. *)
Definition update_cost_log (opcode : Opcode) (inst_cost wait_cost : Q)
    (st : State) : option State :=
  if (inst_count st opcode <? INT_MAX)%Z then
    Some (mkState (regfile st) (memory st) (nodes st) (main_cost st)
            (total_wait_cost st + wait_cost)%Q
            (array_set (cost_per_inst st) opcode
               (cost_per_inst st opcode + inst_cost)%Q)
            (array_set (inst_count st) opcode (inst_count st opcode + 1)%Z)
            (program st) (error_line_num st))
  else None.

(** Modelled from the spec: [invoke_runtime_error] is declared in
    [error.h], outside the source files at hand.  "A fatal error aborts
    the entire run immediately", carrying the message and the line held
    in [error_line_num]. *)
Definition invoke_runtime_error (msg : string) (st : State) : Outcome :=
  Fatal msg st.

(** What one turn of the [while (true)] loop of [exec_function] asks of
    the loop: stop with an outcome, go on at a cursor, or run a callee
    and come back. *)
Inductive Step : Type :=
  | Halt (out : Outcome)
  | Goto (curr : option Stmt) (st : State)
  | Invoke (callee : Function) (old : RegFile) (st : State).

(** The body of the loop: the line is recorded, then the [switch] on the
    opcode runs up to the [break], the [return] or the recursive call. *)
Definition dispatch (parent : option nat) (function : Function) (cost : nat)
    (curr : Stmt) (st : State) : Step :=
  let st := set_error_line_num (get_line curr) st in
  match get_opcode curr with
  | Ret =>
      let ret := ret_get_val curr (get_cost cost st) (regfile st) in
      let st := add_cost cost (Cost.RET + ret.2)%Q st in
      match update_cost_log Ret Cost.RET ret.2 st with
      | None => Halt Undefined
      | Some st =>
          let st := match parent with
                    | Some p => add_cost p (get_cost cost st) st
                    | None => st
                    end in
          Halt (Returned ret.1 st)
      end
  | BrUncond =>
      let bb := bruncond_get_bb curr in
      match get_bb function bb with
      | None => Halt (invoke_runtime_error "branching to an undefined basic block" st)
      | Some target =>
          let st := add_cost cost Cost.BRUNCOND st in
          match update_cost_log BrUncond Cost.BRUNCOND 0%Q st with
          | None => Halt Undefined
          | Some st => Goto (Some target) st
          end
      end
  | BrCond =>
      let bb := brcond_get_bb curr (get_cost cost st) (regfile st) in
      match get_bb function bb.1 with
      | None => Halt (invoke_runtime_error "branching to an undefined basic block" st)
      | Some target =>
          let inst_cost :=
            if brcond_get_eval curr (get_cost cost st) (regfile st)
            then Cost.BRCOND_TRUE else Cost.BRCOND_FALSE in
          let st := add_cost cost (inst_cost + bb.2)%Q st in
          match update_cost_log BrCond inst_cost bb.2 st with
          | None => Halt Undefined
          | Some st => Goto (Some target) st
          end
      end
  | Switch =>
      let bb := switch_get_bb curr (get_cost cost st) (regfile st) in
      match get_bb function bb.1 with
      | None => Halt (invoke_runtime_error "branching to an undefined basic block" st)
      | Some target =>
          let st := add_cost cost (Cost.SWITCH + bb.2)%Q st in
          match update_cost_log Switch Cost.SWITCH bb.2 st with
          | None => Halt Undefined
          | Some st => Goto (Some target) st
          end
      end
  | Call =>
      match program st with
      | None => Halt Undefined
      | Some prog =>
          match get_function prog (call_get_fname curr) with
          | None => Halt (invoke_runtime_error "calling an undefined function" st)
          | Some callee =>
              let n := get_nargs callee in
              if decide (n <> call_get_nargs curr) then
                Halt (invoke_runtime_error "calling with incorrect number of arguments" st)
              else
                let old := regfile st in
                let st := set_regfile (set_nargs n (regfile st)) st in
                let args := call_setup_args curr (get_cost cost st) old (regfile st) in
                let st := set_regfile args.2 st in
                let wait_cost := args.1 in
                let inst_cost := (Cost.CALL + inject_Z n * Cost.PER_ARG)%Q in
                let st := add_cost cost (inst_cost + wait_cost)%Q st in
                match update_cost_log Call inst_cost wait_cost st with
                | None => Halt Undefined
                | Some st => Invoke callee old st
                end
          end
      end
  | _ =>
      match stmt_exec curr (get_cost cost st) (regfile st) (memory st) with
      | ExecError msg => Halt (invoke_runtime_error msg st)
      | ExecOk inst_cost wait_cost rf mem =>
          let st := set_memory mem (set_regfile rf st) in
          let st := add_cost cost (inst_cost + wait_cost)%Q st in
          match update_cost_log (get_opcode curr) inst_cost wait_cost st with
          | None => Halt Undefined
          | Some st => Goto (get_next curr) st
          end
      end
  end.

(** The head of [exec_function], up to the loop: the accumulator is
    made and linked, then the entry block is looked up. *)
Definition enter (parent : option nat) (function : Function) (st : State)
    : nat * State :=
  let '(cost, st) := new_CostStack (get_fname function) st in
  match parent with
  | None => (cost, set_main_cost cost st)
  | Some p => (cost, set_callee p cost st)
  end.

Definition exec_function_with
    (loop : option nat -> Function -> nat -> option Stmt -> State -> Outcome)
    (parent : option nat) (function : Function) (st : State) : Outcome :=
  let '(cost, st) := enter parent function st in
  match get_first_bb function with
  | None => invoke_runtime_error "missing first basic block" st
  | Some curr => loop parent function cost (Some curr) st
  end.

(** After the callee returned: [regfile = old], the return value is
    written to the destination of the call. *)
Definition finish_call (curr : Stmt) (old : RegFile) (ret : Z) (st : State)
    : State :=
  set_regfile (write_reg (get_lhs curr) ret old) st.

(** The loop of [exec_function].  Each turn and each nested activation
    takes one unit of [fuel]; a null cursor is dereferenced at the head
    of the turn. *)
Fixpoint exec_loop (fuel : nat) (parent : option nat) (function : Function)
    (cost : nat) (curr : option Stmt) (st : State) : Outcome :=
  match fuel with
  | O => OutOfFuel
  | S fuel' =>
      match curr with
      | None => Undefined
      | Some curr =>
          match dispatch parent function cost curr st with
          | Halt out => out
          | Goto curr' st' => exec_loop fuel' parent function cost curr' st'
          | Invoke callee old st' =>
              match exec_function_with (exec_loop fuel') (Some cost) callee st' with
              | Returned ret st'' =>
                  exec_loop fuel' parent function cost (get_next curr)
                    (finish_call curr old ret st'')
              | out => out
              end
          end
      end
  end.

(** [State::exec_function] *)
Definition exec_function (fuel : nat) (parent : option nat)
    (function : Function) (st : State) : Outcome :=
  exec_function_with (exec_loop fuel) parent function st.

(** [State::exec_program] *)
Definition exec_program (fuel : nat) (st : State) : Outcome :=
  match program st with
  | None => Undefined
  | Some prog =>
      match get_function prog "main" with
      | None => invoke_runtime_error "missing main function" st
      | Some main => exec_function fuel None main st
      end
  end.

End Engine.

(** ** The instruction table *)

Section Report.
Context {Program Memory : Type}.

(** [operator<<] for an [int] and for a [double] under
    [fixed << setprecision(4)]. *)
Variable show_int : Z -> string.
Variable show_fixed4 : Q -> string.

Definition tab : string := String (Ascii.ascii_of_nat 9) EmptyString.
Definition endl : string := String (Ascii.ascii_of_nat 10) EmptyString.

(** [State::inst_log_line] *)
Definition inst_log_line (st : State Program Memory) (opcode : Opcode)
    (inst : string) : string :=
  inst ++ tab ++ show_int (inst_count st opcode) ++ tab
       ++ show_fixed4 (cost_per_inst st opcode).

(** [State::inst_log_to_string] *)
Definition inst_log_to_string (st : State Program Memory) : string :=
  ("Instruction" ++ tab ++ "Count" ++ tab ++ "Cost" ++ endl)
  ++ (inst_log_line st Ret "Ret" ++ endl)
  ++ (inst_log_line st BrUncond "BrUncond" ++ endl)
  ++ (inst_log_line st BrCond "BrCond" ++ endl)
  ++ (inst_log_line st BrCond "BrCond" ++ endl)
  ++ (inst_log_line st Switch "Switch" ++ endl)
  ++ (inst_log_line st Malloc "Malloc" ++ endl)
  ++ (inst_log_line st Free "Free" ++ endl)
  ++ (inst_log_line st Load "Load" ++ endl)
  ++ (inst_log_line st Store "Store" ++ endl)
  ++ (inst_log_line st Bop "BinaryOp" ++ endl)
  ++ (inst_log_line st Sum "Sum" ++ endl)
  ++ (inst_log_line st Uop "UnaryOp" ++ endl)
  ++ (inst_log_line st Select "Select" ++ endl)
  ++ (inst_log_line st Call "Call" ++ endl)
  ++ (inst_log_line st Read "Read" ++ endl)
  ++ (inst_log_line st Write "Write" ++ endl)
  ++ "".

(** The rows of the table: the opcode and the caption of each
    [inst_log_line] call, top to bottom. *)
Definition inst_log_rows : list (Opcode * string) :=
  [(Ret, "Ret"); (BrUncond, "BrUncond"); (BrCond, "BrCond");
   (BrCond, "BrCond"); (Switch, "Switch"); (Malloc, "Malloc");
   (Free, "Free"); (Load, "Load"); (Store, "Store"); (Bop, "BinaryOp");
   (Sum, "Sum"); (Uop, "UnaryOp"); (Select, "Select"); (Call, "Call");
   (Read, "Read"); (Write, "Write")].

Definition render_rows (st : State Program Memory)
    (rows : list (Opcode * string)) : string :=
  foldr (fun row out => (inst_log_line st row.1 row.2 ++ endl) ++ out)
        "" rows.

End Report.

(** ** Sums over the instruction log *)

Section Totals.
Context {Program Memory : Type}.

(** The sum of a per-opcode column over the whole opcode set. *)
Definition sum_costs (f : Opcode -> Q) : Q :=
  foldr Qplus 0%Q (map f all_opcodes).

(** All that the log has recorded: the cost column and the wait total. *)
Definition log_total (st : State Program Memory) : Q :=
  (sum_costs (cost_per_inst st) + total_wait_cost st)%Q.

(** The log of [st'] is pointwise at or above the log of [st]. *)
Definition log_le (st st' : State Program Memory) : Prop :=
  (forall o, (inst_count st o <= inst_count st' o)%Z) /\
  (forall o, (cost_per_inst st o <= cost_per_inst st' o)%Q) /\
  (total_wait_cost st <= total_wait_cost st')%Q.

(** Two states with the same accumulators, log and program: at most the
    register file, the memory and the recorded line differ. *)
Definition same_books (st st' : State Program Memory) : Prop :=
  nodes st' = nodes st /\ main_cost st' = main_cost st /\
  total_wait_cost st' = total_wait_cost st /\
  cost_per_inst st' = cost_per_inst st /\
  inst_count st' = inst_count st /\ program st' = program st.

(** [st'] is [st] after one instruction was charged: the pair went to
    the accumulator [cost] as one sum and to the log through one call of
    [update_cost_log], with at most the register file, the memory and
    the recorded line changed before. *)
Definition charged (cost : nat) (opcode : Opcode) (inst_cost wait_cost : Q)
    (st st' : State Program Memory) : Prop :=
  exists st0, same_books st st0 /\
    update_cost_log opcode inst_cost wait_cost
      (add_cost cost (inst_cost + wait_cost)%Q st0) = Some st'.

(** The tail of the [Ret] case: the total goes up to the parent, if any. *)
Definition propagate (parent : option nat) (cost : nat)
    (st : State Program Memory) : State Program Memory :=
  match parent with
  | Some p => add_cost p (get_cost cost st) st
  | None => st
  end.

End Totals.

(** ** The taken path *)

Section Path.
Context {Stmt Function Program Memory : Type}.
Context `{!Graph Stmt Function Program Memory}.

(** The base cost and the stall cost of the instruction [curr], when the
    activation whose accumulator is [cost] executes it in [st], in the
    words of the specification: [RET], [BRUNCOND], [BRCOND_TRUE] or
    [BRCOND_FALSE], [SWITCH], [CALL + nargs * PER_ARG] with the stall of
    the operand it evaluates, and for every other opcode the pair its
    own effect evaluation returns. *)
Definition instr_cost (cost : nat) (curr : Stmt) (st : State Program Memory)
    : Q * Q :=
  let now := get_cost cost st in
  match get_opcode curr with
  | Ret => (Cost.RET, (ret_get_val curr now (regfile st)).2)
  | BrUncond => (Cost.BRUNCOND, 0%Q)
  | BrCond =>
      (if brcond_get_eval curr now (regfile st)
       then Cost.BRCOND_TRUE else Cost.BRCOND_FALSE,
       (brcond_get_bb curr now (regfile st)).2)
  | Switch => (Cost.SWITCH, (switch_get_bb curr now (regfile st)).2)
  | Call =>
      ((Cost.CALL + inject_Z (call_get_nargs curr) * Cost.PER_ARG)%Q,
       (call_setup_args curr now (regfile st)
          (set_nargs (call_get_nargs curr) (regfile st))).1)
  | _ =>
      match stmt_exec curr now (regfile st) (memory st) with
      | ExecOk inst_cost wait_cost _ _ => (inst_cost, wait_cost)
      | ExecError _ => (0%Q, 0%Q)
      end
  end.

(** The label that the branch or switch [curr] resolves in [st]. *)
Definition branch_label (cost : nat) (curr : Stmt) (st : State Program Memory)
    : string :=
  let now := get_cost cost st in
  match get_opcode curr with
  | BrUncond => bruncond_get_bb curr
  | BrCond => (brcond_get_bb curr now (regfile st)).1
  | _ => (switch_get_bb curr now (regfile st)).1
  end.

(** One executed instruction: the accumulator of its activation, the
    statement, and the state it was dispatched in. *)
Definition Visit : Type := nat * Stmt * State Program Memory.

Definition visit_opcode (v : Visit) : Opcode := get_opcode v.1.2.
Definition visit_cost (v : Visit) : Q :=
  let c := instr_cost v.1.1 v.1.2 v.2 in (c.1 + c.2)%Q.

Definition executed_function_with
    (loop : option nat -> Function -> nat -> option Stmt ->
            State Program Memory -> list Visit)
    (parent : option nat) (function : Function) (st : State Program Memory)
    : list Visit :=
  let '(cost, st) := enter parent function st in
  match get_first_bb function with
  | None => []
  | Some curr => loop parent function cost (Some curr) st
  end.

(** The instructions that [exec_loop] executes, in order, those of the
    nested activations included; an instruction whose turn ends in a
    runtime error or in undefined behaviour is not among them. *)
Fixpoint executed (fuel : nat) (parent : option nat) (function : Function)
    (cost : nat) (curr : option Stmt) (st : State Program Memory)
    : list Visit :=
  match fuel with
  | O => []
  | S fuel' =>
      match curr with
      | None => []
      | Some curr =>
          match dispatch parent function cost curr st with
          | Halt (Returned _ _) => [(cost, curr, st)]
          | Halt _ => []
          | Goto curr' st' =>
              (cost, curr, st) :: executed fuel' parent function cost curr' st'
          | Invoke callee old st' =>
              (cost, curr, st) ::
              executed_function_with (executed fuel') (Some cost) callee st' ++
              match exec_function_with (exec_loop fuel') (Some cost) callee st' with
              | Returned ret st'' =>
                  executed fuel' parent function cost (get_next curr)
                    (finish_call curr old ret st'')
              | _ => []
              end
          end
      end
  end.

(** The instructions a run of [exec_program] executes. *)
Definition executed_program (fuel : nat) (st : State Program Memory)
    : list Visit :=
  match program st with
  | None => []
  | Some prog =>
      match get_function prog "main" with
      | None => []
      | Some main => executed_function_with (executed fuel) None main st
      end
  end.

(** The sum of base plus stall cost over a list of executed instructions. *)
Definition path_cost (path : list Visit) : Q :=
  foldr (fun v acc => (visit_cost v + acc)%Q) 0%Q path.

(** How many of them carry the opcode [o]. *)
Definition path_count (o : Opcode) (path : list Visit) : Z :=
  Z.of_nat (length (filter (fun v => visit_opcode v = o) path)).



(** The state an outcome carries, if it carries one. *)
Definition outcome_state (out : Outcome Program Memory)
    : option (State Program Memory) :=
  match out with
  | Returned _ st | Fatal _ st => Some st
  | Undefined | OutOfFuel => None
  end.





End Path.

(** ** What a returned activation has done to the books *)

Section Accounts.
Context {Stmt Function Program Memory : Type}.

(** The loop of an activation with accumulator [cost] under [parent]
    took [st] to [st']: nodes were only added, the root pointer is the
    same, accumulators other than [cost] and the parent's kept their
    cost, [cost] grew by what the log recorded meanwhile, and the parent
    received the total of [cost]. *)
Definition accounts (parent : option nat) (cost : nat)
    (st st' : State Program Memory) : Prop :=
  length (nodes st) <= length (nodes st') /\
  main_cost st' = main_cost st /\
  (forall q, q < length (nodes st) -> q <> cost -> parent <> Some q ->
             get_cost q st' = get_cost q st) /\
  (get_cost cost st' - get_cost cost st == log_total st' - log_total st)%Q /\
  (forall p, parent = Some p ->
             (get_cost p st' == get_cost p st + get_cost cost st')%Q).

(** The same for a whole activation entered from [st]: its accumulator
    is the node made first, at the end of the store of [st]. *)
Definition activation_accounts (parent : option nat)
    (st st' : State Program Memory) : Prop :=
  let c := length (nodes st) in
  c < length (nodes st') /\
  main_cost st' = match parent with None => Some c | Some _ => main_cost st end /\
  (forall q, q < c -> parent <> Some q -> get_cost q st' = get_cost q st) /\
  (get_cost c st' == log_total st' - log_total st)%Q /\
  (forall p, parent = Some p ->
             (get_cost p st' == get_cost p st + get_cost c st')%Q).

Definition loop_accounts
    (loop : option nat -> Function -> nat -> option Stmt ->
            State Program Memory -> Outcome Program Memory) : Prop :=
  forall parent function cost curr st ret st',
    cost < length (nodes st) ->
    (forall p, parent = Some p -> p < length (nodes st) /\ p <> cost) ->
    loop parent function cost curr st = Returned ret st' ->
    accounts parent cost st st'.

End Accounts.

(** ** A small concrete program graph *)

Module Demo.

(** A statement with every field a subclass may need: the register
    written, a name (callee, target or operand register), an alternative
    target, an unsigned immediate and the stall its operand costs, in
    quarters of a cost unit. *)
Inductive stmt : Type :=
  | Instr (op : Opcode) (line : Z) (lhs name alt : string) (imm : N)
          (quarters : N) (next : option stmt).

Definition s_op (s : stmt) := let 'Instr o _ _ _ _ _ _ _ := s in o.
Definition s_line (s : stmt) := let 'Instr _ l _ _ _ _ _ _ := s in l.
Definition s_lhs (s : stmt) := let 'Instr _ _ r _ _ _ _ _ := s in r.
Definition s_name (s : stmt) := let 'Instr _ _ _ n _ _ _ _ := s in n.
Definition s_alt (s : stmt) := let 'Instr _ _ _ _ a _ _ _ := s in a.
Definition s_imm (s : stmt) : Z := let 'Instr _ _ _ _ _ i _ _ := s in Z.of_N i.
Definition s_stall (s : stmt) : Q :=
  let 'Instr _ _ _ _ _ _ w _ := s in Z.of_N w # 4.
Definition s_next (s : stmt) := let 'Instr _ _ _ _ _ _ _ n := s in n.

Record func : Type := mkFunc {
  f_name : string;
  f_nargs : Z;
  f_blocks : list (string * stmt)
}.

Definition prog : Type := list func.

(** The value of operand [name]: the register if it is set, else the
    immediate. *)
Definition operand (s : stmt) (rf : RegFile) : Z :=
  default (s_imm s) (regs rf !! s_name s).

Definition truth (s : stmt) (rf : RegFile) : bool :=
  negb (default 0 (regs rf !! s_lhs s) =? 0)%Z.

Definition base_cost (o : Opcode) : Q :=
  match o with
  | Malloc => Cost.MALLOC
  | Free => Cost.FREE
  | Load | Store => Cost.HEAP
  | Bop => Cost.ADDSUB
  | Sum => Cost.SUM
  | Uop => Cost.UOP
  | Select => Cost.TERNARY
  | Assert => Cost.ASSERT
  | _ => 1%Q
  end.

Definition run (s : stmt) (rf : RegFile) (mem : unit) : ExecResult unit :=
  match s_op s with
  | Assert =>
      if truth s rf then ExecOk Cost.ASSERT 0%Q rf mem
      else ExecError "assertion failed"
  | o => ExecOk (base_cost o) (s_stall s) (write_reg (s_lhs s) (operand s rf) rf) mem
  end.

Definition lookup_block (f : func) (label : string) : option stmt :=
  snd <$> find (fun b => bool_decide (fst b = label)) (f_blocks f).

Definition lookup_func (p : prog) (name : string) : option func :=
  find (fun f => bool_decide (f_name f = name)) p.

#[global] Instance demo_graph : Graph stmt func prog unit := {|
  get_opcode := s_op;
  get_line := s_line;
  get_next := s_next;
  get_lhs := s_lhs;
  ret_get_val s _ rf := (operand s rf, s_stall s);
  bruncond_get_bb := s_name;
  brcond_get_bb s _ rf := (if truth s rf then s_name s else s_alt s, s_stall s);
  brcond_get_eval s _ rf := truth s rf;
  switch_get_bb s _ rf := (s_name s, s_stall s);
  call_get_fname := s_name;
  call_get_nargs := s_imm;
  call_setup_args s _ old new := (s_stall s, new);
  stmt_exec s _ rf mem := run s rf mem;
  get_fname := f_name;
  get_nargs := f_nargs;
  get_first_bb f := snd <$> head (f_blocks f);
  get_bb := lookup_block;
  get_function := lookup_func;
  Memory_new := tt
|}.

(** [f]: sets a register, jumps to its exit block and returns 5. *)
Definition f_exit : stmt := Instr Ret 12 "" "" "" 5 0 None.
Definition f_entry : stmt :=
  Instr Bop 10 "t" "" "" 3 0
    (Some (Instr BrUncond 11 "" "exit" "" 0 0 None)).
Definition f : func := mkFunc "f" 2 [("entry", f_entry); ("exit", f_exit)].

(** [main]: calls [f] with two arguments, branches on the result, goes
    through a switch and returns the result. *)
Definition main_branch : stmt := Instr BrCond 3 "x" "yes" "no" 0 1 None.
Definition main_call : stmt := Instr Call 2 "x" "f" "" 2 2 (Some main_branch).
Definition main_entry : stmt := Instr Bop 1 "a" "" "" 1 0 (Some main_call).
Definition main_yes : stmt := Instr Switch 4 "" "out" "" 0 2 None.
Definition main_no : stmt := Instr Ret 5 "" "" "" 0 0 None.
Definition main_out : stmt := Instr Ret 6 "" "x" "" 0 0 None.
Definition main : func :=
  mkFunc "main" 0
    [("entry", main_entry); ("yes", main_yes); ("no", main_no);
     ("out", main_out)].

Definition program : prog := [main; f].

(** Ill-formed graphs: a call of an unknown function, a call with three
    arguments of [f], a jump to an unknown label, a function without
    blocks, and a program without [main]. *)
Definition call_unknown : stmt := Instr Call 7 "x" "g" "" 0 0 None.
Definition call_three : stmt := Instr Call 8 "x" "f" "" 3 0 None.
Definition jump_unknown : stmt := Instr BrUncond 9 "" "nowhere" "" 0 0 None.
Definition cond_unknown : stmt := Instr BrCond 13 "x" "nowhere" "nowhere" 0 1 None.
Definition switch_unknown : stmt := Instr Switch 14 "" "nowhere" "" 0 2 None.
Definition empty_func : func := mkFunc "e" 0 [].
Definition call_empty : stmt := Instr Call 15 "x" "e" "" 0 0 None.
Definition main_calls_empty : func := mkFunc "main" 0 [("entry", call_empty)].
Definition headless : prog := [f].

(** The state a fresh engine holds once [program] is installed, and the
    state it is left in by a run with a budget of a hundred steps. *)
Definition start : State prog unit := set_program program (State_new 0).

Definition ended : State prog unit :=
  match exec_program 100 start with
  | Returned _ st | Fatal _ st => st
  | _ => start
  end.

Definition headless_start : State prog unit := set_program headless (State_new 0).

(** The states [main] passes through: entered, at its call of [f], when
    [f] starts, when [f] has returned, and at its conditional branch. *)
Definition entered : State prog unit := (enter None main start).2.

Definition at_call : State prog unit :=
  match dispatch None main 0 main_entry entered with
  | Goto _ st => st
  | _ => entered
  end.

Definition f_started : State prog unit :=
  match dispatch None main 0 main_call at_call with
  | Invoke _ _ st => st
  | _ => at_call
  end.

Definition f_returned : State prog unit :=
  match exec_function 50 (Some 0) f f_started with
  | Returned _ st => st
  | _ => f_started
  end.

Definition at_branch : State prog unit := finish_call main_call (regfile at_call) 5 f_returned.

End Demo.

(** ** The call tree in the store *)

Section Tree.
Context {Stmt Function Program Memory : Type}.
Context `{!Graph Stmt Function Program Memory}.

(** Every callee pointer of the store points forward, to a node of the
    store made after the node that holds it. *)
Definition forward (store : list CostStack) : Prop :=
  forall p n c, store !! p = Some n -> In c (callees n) -> p < c < length store.

(** What the loop of the activation with accumulator [cost] under
    [parent] may do to an accumulator [n] found at [q]: the name stays,
    the callee list stays unless the node is the activation's own, and
    the whole node stays unless it is the activation's own or its
    parent's. *)
Definition node_kept (parent : option nat) (cost q : nat) (n n' : CostStack)
    : Prop :=
  fname n' = fname n /\
  (q <> cost -> callees n' = callees n) /\
  (q <> cost -> parent <> Some q -> n' = n).

(** From [st] to [st'] the store has gained one node per call among
    [path], callee pointers still point forward, the nodes of [st] are
    kept in the sense above, and the root pointer is the same. *)
Definition store_grows (parent : option nat) (cost : nat)
    (path : list (Visit (Stmt := Stmt))) (st st' : State Program Memory) : Prop :=
  Z.of_nat (length (nodes st')) =
    (Z.of_nat (length (nodes st)) + path_count Call path)%Z /\
  (forward (nodes st) -> forward (nodes st')) /\
  (forall q n, nodes st !! q = Some n ->
     exists n', nodes st' !! q = Some n' /\ node_kept parent cost q n n') /\
  main_cost st' = main_cost st.

(** The same for a whole activation of [function] entered from [st]: one
    node more for the activation itself, named after the function; the
    parent has the new node at the end of its callee list and is
    otherwise kept up to its cost, every other node of [st] is as it
    was. *)
Definition activation_grows (parent : option nat) (function : Function)
    (path : list (Visit (Stmt := Stmt))) (st st' : State Program Memory) : Prop :=
  let c := length (nodes st) in
  Z.of_nat (length (nodes st')) =
    (Z.of_nat c + 1 + path_count Call path)%Z /\
  (forward (nodes st) -> forward (nodes st')) /\
  (exists n', nodes st' !! c = Some n' /\ fname n' = get_fname function) /\
  (forall q n, nodes st !! q = Some n ->
     exists n', nodes st' !! q = Some n' /\ fname n' = fname n /\
       callees n' = (if decide (parent = Some q)
                     then (callees n ++ [c])%list else callees n) /\
       (parent <> Some q -> n' = n)) /\
  main_cost st' = match parent with None => Some c | Some _ => main_cost st end.

End Tree.

(** [span store p e]: the subtree of the node at [p] is the block of the
    store from [p] up to [e], [e] left out: the callees of [p] follow it
    one after the other, each with the block of its own subtree.
    [tiles store cs a e]: the subtrees of the callees [cs] fill the block
    from [a] up to [e] in this order. *)
Inductive span (store : list CostStack) : nat -> nat -> Prop :=
  | span_node p n e :
      store !! p = Some n ->
      tiles store (callees n) (S p) e ->
      span store p e
with tiles (store : list CostStack) : list nat -> nat -> nat -> Prop :=
  | tiles_nil a : tiles store [] a a
  | tiles_cons c cs m e :
      span store c m -> tiles store cs m e -> tiles store (c :: cs) c e.

Scheme span_mut := Minimality for span Sort Prop
  with tiles_mut := Minimality for tiles Sort Prop.

(** The activation with accumulator [cost] is still running in [st]: the
    subtrees of the callees it has so far fill the store from behind
    [cost] to the end. *)
Definition open_block {Program Memory : Type} (cost : nat)
    (st : State Program Memory) : Prop :=
  exists n, nodes st !! cost = Some n /\
    tiles (nodes st) (callees n) (S cost) (length (nodes st)).

(** ** The cost report *)

Section CostReport.

(** [operator<<] for a [double] under [fixed << setprecision(4)]. *)
Variable show_fixed4 : Q -> string.

(** [CostStack::to_string], on the node that [p] points to.  Each level
    of the tree takes one unit of [fuel]; [None] when the budget runs out
    or a pointer leaves the store. *)
Fixpoint CostStack_to_string (fuel : nat) (store : list CostStack) (p : nat)
    (indent : string) : option string :=
  match fuel with
  | O => None
  | S fuel' =>
      match store !! p with
      | None => None
      | Some n =>
          let line := indent ++ fname n ++ ": " ++ show_fixed4 (cost n) ++ endl in
          foldl (fun ss it =>
                   match ss, CostStack_to_string fuel' store it (indent ++ "| ") with
                   | Some s, Some t => Some (s ++ t)
                   | _, _ => None
                   end)
                (Some line) (callees n)
      end
  end.

(** [d] levels of the indentation that [to_string] adds per level. *)
Fixpoint bars (d : nat) : string :=
  match d with
  | O => ""
  | S d' => "| " ++ bars d'
  end.

(** The line of the node [n] at depth [d] under [indent], and the lines
    of a list of nodes at the given depths. *)
Definition report_line (indent : string) (d : nat) (n : CostStack) : string :=
  indent ++ bars d ++ fname n ++ ": " ++ show_fixed4 (cost n) ++ endl.

Definition report_lines (indent : string) (depths : list nat)
    (ns : list CostStack) : string :=
  foldr (fun l out => l ++ out) "" (zip_with (report_line indent) depths ns).

End CostReport.

(** ** More small graphs *)

Module Demo2.

(** A function that returns at once, a statement that ends its block
    without a terminator, and a program whose [main] calls a function
    that has no block. *)
Definition leaf : Demo.func := Demo.mkFunc "leaf" 0 [("entry", Demo.f_exit)].

Definition dangling : Demo.stmt := Demo.Instr Bop 20 "t" "" "" 3 1 None.

Definition hollow : Demo.prog := [Demo.main_calls_empty; Demo.empty_func].

Definition hollow_start : State Demo.prog unit :=
  set_program hollow (State_new 0).

Definition hollow_entered : State Demo.prog unit :=
  (enter None Demo.main_calls_empty hollow_start).2.

End Demo2.

(** ** The engine in the arithmetic of the source *)

(** [state.cpp] keeps every cost in a [double].  An operation on doubles
    is the exact operation followed by the rounding of its result to a
    double, and a literal of [opcode.h] or an [int] converted to
    [double] is rounded in the same way; on the rationals this rounding
    is a function [rnd : Q -> Q].  [Rounded] is the engine above with
    [rnd] applied wherever the source computes on doubles; with the
    identity for [rnd] it is the engine above. *)

Module Rounded.
Section Engine.
Context {Stmt Function Program Memory : Type}.
Context `{!Graph Stmt Function Program Memory}.
Variable rnd : Q -> Q.

(** [CostStack::add_cost]: [cost += _cost] *)
Definition CostStack_add_cost (c : Q) (n : CostStack) : CostStack :=
  mkCostStack (fname n) (rnd (cost n + c)) (callees n).

Definition add_cost (p : nat) (c : Q) (st : State Program Memory)
    : State Program Memory :=
  set_nodes (alter (CostStack_add_cost c) p (nodes st)) st.

(** [State::update_cost_log] *)
Definition update_cost_log (opcode : Opcode) (inst_cost wait_cost : Q)
    (st : State Program Memory) : option (State Program Memory) :=
  if (inst_count st opcode <? INT_MAX)%Z then
    Some (mkState (regfile st) (memory st) (nodes st) (main_cost st)
            (rnd (total_wait_cost st + wait_cost))
            (array_set (cost_per_inst st) opcode
               (rnd (cost_per_inst st opcode + inst_cost)))
            (array_set (inst_count st) opcode (inst_count st opcode + 1)%Z)
            (program st) (error_line_num st))
  else None.

(** The body of the loop of [exec_function]. *)
Definition dispatch (parent : option nat) (function : Function) (cost : nat)
    (curr : Stmt) (st : State Program Memory) : Step :=
  let st := set_error_line_num (get_line curr) st in
  match get_opcode curr with
  | Ret =>
      let ret := ret_get_val curr (get_cost cost st) (regfile st) in
      let st := add_cost cost (rnd (rnd Cost.RET + ret.2)) st in
      match update_cost_log Ret (rnd Cost.RET) ret.2 st with
      | None => Halt Undefined
      | Some st =>
          let st := match parent with
                    | Some p => add_cost p (get_cost cost st) st
                    | None => st
                    end in
          Halt (Returned ret.1 st)
      end
  | BrUncond =>
      let bb := bruncond_get_bb curr in
      match get_bb function bb with
      | None => Halt (invoke_runtime_error "branching to an undefined basic block" st)
      | Some target =>
          let st := add_cost cost (rnd Cost.BRUNCOND) st in
          match update_cost_log BrUncond (rnd Cost.BRUNCOND) 0%Q st with
          | None => Halt Undefined
          | Some st => Goto (Some target) st
          end
      end
  | BrCond =>
      let bb := brcond_get_bb curr (get_cost cost st) (regfile st) in
      match get_bb function bb.1 with
      | None => Halt (invoke_runtime_error "branching to an undefined basic block" st)
      | Some target =>
          let inst_cost :=
            if brcond_get_eval curr (get_cost cost st) (regfile st)
            then rnd Cost.BRCOND_TRUE else rnd Cost.BRCOND_FALSE in
          let st := add_cost cost (rnd (inst_cost + bb.2)) st in
          match update_cost_log BrCond inst_cost bb.2 st with
          | None => Halt Undefined
          | Some st => Goto (Some target) st
          end
      end
  | Switch =>
      let bb := switch_get_bb curr (get_cost cost st) (regfile st) in
      match get_bb function bb.1 with
      | None => Halt (invoke_runtime_error "branching to an undefined basic block" st)
      | Some target =>
          let st := add_cost cost (rnd (rnd Cost.SWITCH + bb.2)) st in
          match update_cost_log Switch (rnd Cost.SWITCH) bb.2 st with
          | None => Halt Undefined
          | Some st => Goto (Some target) st
          end
      end
  | Call =>
      match program st with
      | None => Halt Undefined
      | Some prog =>
          match get_function prog (call_get_fname curr) with
          | None => Halt (invoke_runtime_error "calling an undefined function" st)
          | Some callee =>
              let n := get_nargs callee in
              if decide (n <> call_get_nargs curr) then
                Halt (invoke_runtime_error "calling with incorrect number of arguments" st)
              else
                let old := regfile st in
                let st := set_regfile (set_nargs n (regfile st)) st in
                let args := call_setup_args curr (get_cost cost st) old (regfile st) in
                let st := set_regfile args.2 st in
                let wait_cost := args.1 in
                let inst_cost :=
                  rnd (rnd Cost.CALL + rnd (rnd (inject_Z n) * rnd Cost.PER_ARG)) in
                let st := add_cost cost (rnd (inst_cost + wait_cost)) st in
                match update_cost_log Call inst_cost wait_cost st with
                | None => Halt Undefined
                | Some st => Invoke callee old st
                end
          end
      end
  | _ =>
      match stmt_exec curr (get_cost cost st) (regfile st) (memory st) with
      | ExecError msg => Halt (invoke_runtime_error msg st)
      | ExecOk inst_cost wait_cost rf mem =>
          let st := set_memory mem (set_regfile rf st) in
          let st := add_cost cost (rnd (inst_cost + wait_cost)) st in
          match update_cost_log (get_opcode curr) inst_cost wait_cost st with
          | None => Halt Undefined
          | Some st => Goto (get_next curr) st
          end
      end
  end.

(** The loop of [exec_function]. *)
Fixpoint exec_loop (fuel : nat) (parent : option nat) (function : Function)
    (cost : nat) (curr : option Stmt) (st : State Program Memory)
    : Outcome Program Memory :=
  match fuel with
  | O => OutOfFuel
  | S fuel' =>
      match curr with
      | None => Undefined
      | Some curr =>
          match dispatch parent function cost curr st with
          | Halt out => out
          | Goto curr' st' => exec_loop fuel' parent function cost curr' st'
          | Invoke callee old st' =>
              match exec_function_with (exec_loop fuel') (Some cost) callee st' with
              | Returned ret st'' =>
                  exec_loop fuel' parent function cost (get_next curr)
                    (finish_call curr old ret st'')
              | out => out
              end
          end
      end
  end.

(** [State::exec_function] *)
Definition exec_function (fuel : nat) (parent : option nat)
    (function : Function) (st : State Program Memory) : Outcome Program Memory :=
  exec_function_with (exec_loop fuel) parent function st.

(** [State::exec_program] *)
Definition exec_program (fuel : nat) (st : State Program Memory)
    : Outcome Program Memory :=
  match program st with
  | None => Undefined
  | Some prog =>
      match get_function prog "main" with
      | None => invoke_runtime_error "missing main function" st
      | Some main => exec_function fuel None main st
      end
  end.

(** What the turn of [curr] adds to the accumulator of its activation:
    the argument of [cost->add_cost] in its case of the [switch], base
    plus stall. *)
Definition visit_cost (v : Visit (Stmt := Stmt) (Program := Program)
                                 (Memory := Memory)) : Q :=
  let '(cost, curr, st) := v in
  let now := get_cost cost st in
  match get_opcode curr with
  | Ret => rnd (rnd Cost.RET + (ret_get_val curr now (regfile st)).2)
  | BrUncond => rnd Cost.BRUNCOND
  | BrCond =>
      rnd ((if brcond_get_eval curr now (regfile st)
            then rnd Cost.BRCOND_TRUE else rnd Cost.BRCOND_FALSE) +
           (brcond_get_bb curr now (regfile st)).2)
  | Switch => rnd (rnd Cost.SWITCH + (switch_get_bb curr now (regfile st)).2)
  | Call =>
      rnd (rnd (rnd Cost.CALL +
                rnd (rnd (inject_Z (call_get_nargs curr)) * rnd Cost.PER_ARG)) +
           (call_setup_args curr now (regfile st)
              (set_nargs (call_get_nargs curr) (regfile st))).1)
  | _ =>
      match stmt_exec curr now (regfile st) (memory st) with
      | ExecOk inst_cost wait_cost _ _ => rnd (inst_cost + wait_cost)
      | ExecError _ => 0
      end
  end.

(** The instructions that [exec_loop] executes, in order. *)
Fixpoint executed (fuel : nat) (parent : option nat) (function : Function)
    (cost : nat) (curr : option Stmt) (st : State Program Memory)
    : list Visit :=
  match fuel with
  | O => []
  | S fuel' =>
      match curr with
      | None => []
      | Some curr =>
          match dispatch parent function cost curr st with
          | Halt (Returned _ _) => [(cost, curr, st)]
          | Halt _ => []
          | Goto curr' st' =>
              (cost, curr, st) :: executed fuel' parent function cost curr' st'
          | Invoke callee old st' =>
              (cost, curr, st) ::
              executed_function_with (executed fuel') (Some cost) callee st' ++
              match exec_function_with (exec_loop fuel') (Some cost) callee st' with
              | Returned ret st'' =>
                  executed fuel' parent function cost (get_next curr)
                    (finish_call curr old ret st'')
              | _ => []
              end
          end
      end
  end.

Definition executed_program (fuel : nat) (st : State Program Memory)
    : list Visit :=
  match program st with
  | None => []
  | Some prog =>
      match get_function prog "main" with
      | None => []
      | Some main => executed_function_with (executed fuel) None main st
      end
  end.

(** Doubles added to [acc] one after the other, as [+=] does. *)
Definition sum_in_order (acc : Q) (l : list Q) : Q :=
  foldl (fun a x => rnd (a + x)) acc l.

(** The costs of a list of executed instructions summed as real
    numbers, and summed in doubles in the order of execution. *)
Definition path_cost (path : list Visit) : Q :=
  foldr (fun v acc => (visit_cost v + acc)%Q) 0%Q path.

Definition path_sum (path : list Visit) : Q :=
  sum_in_order 0 (map visit_cost path).









End Engine.
End Rounded.

(** No rounding: every operation is exact. *)
Definition exact (q : Q) : Q := q.

(** Rounding to the nearest [double], ties to even: the value of the
    53-bit significand nearest to [n / d], scaled back.  (Overflow and
    subnormal numbers are outside the range of the costs.) *)
Definition round_pos (n d : positive) : Q :=
  let e0 := (Z.log2 (Zpos n) - Z.log2 (Zpos d))%Z in
  let e := if (0 <=? e0)%Z
           then (if (Zpos d * 2 ^ e0 <=? Zpos n)%Z then e0 else e0 - 1)%Z
           else (if (Zpos d <=? Zpos n * 2 ^ (- e0))%Z then e0 else e0 - 1)%Z in
  let s := (52 - e)%Z in
  let N := if (0 <=? s)%Z then (Zpos n * 2 ^ s)%Z else Zpos n in
  let D := if (0 <=? s)%Z then Zpos d else (Zpos d * 2 ^ (- s))%Z in
  let m0 := (N / D)%Z in
  let r := (N mod D)%Z in
  let m := if (2 * r <? D)%Z then m0
           else if (D <? 2 * r)%Z then (m0 + 1)%Z
           else if Z.even m0 then m0 else (m0 + 1)%Z in
  Qred (if (0 <=? s)%Z then Qmake m (Z.to_pos (2 ^ s))
        else inject_Z (m * 2 ^ (- s))).

Definition binary64 (q : Q) : Q :=
  match Qnum q with
  | Z0 => 0
  | Zpos n => round_pos n (Qden q)
  | Zneg n => - round_pos n (Qden q)
  end.

(** The value of a double as a rational. *)
Definition double_value (f : float) : Q :=
  match Prim2SF f with
  | S754_finite s m e =>
      let v := if (0 <=? e)%Z then inject_Z (Zpos m * 2 ^ e)
               else Qmake (Zpos m) (Z.to_pos (2 ^ (- e))) in
      Qred (if s then - v else v)
  | _ => 0
  end.

(** A program whose costs do not add up the same way in two orders:
    [main] sums, calls [f] without arguments and returns; [f] adds,
    selects and returns.  Its collaborators report the costs of
    [opcode.h] as doubles. *)
Module Sums.

Definition run (s : Demo.stmt) (rf : RegFile) (mem : unit) : ExecResult unit :=
  match Demo.run s rf mem with
  | ExecOk b w rf' mem' => ExecOk (binary64 b) (binary64 w) rf' mem'
  | ExecError msg => ExecError msg
  end.

Definition graph : Graph Demo.stmt Demo.func Demo.prog unit := {|
  get_opcode := Demo.s_op;
  get_line := Demo.s_line;
  get_next := Demo.s_next;
  get_lhs := Demo.s_lhs;
  ret_get_val s _ rf := (Demo.operand s rf, Demo.s_stall s);
  bruncond_get_bb := Demo.s_name;
  brcond_get_bb s _ rf :=
    (if Demo.truth s rf then Demo.s_name s else Demo.s_alt s, Demo.s_stall s);
  brcond_get_eval s _ rf := Demo.truth s rf;
  switch_get_bb s _ rf := (Demo.s_name s, Demo.s_stall s);
  call_get_fname := Demo.s_name;
  call_get_nargs := Demo.s_imm;
  call_setup_args s _ old new := (Demo.s_stall s, new);
  stmt_exec s _ rf mem := run s rf mem;
  get_fname := Demo.f_name;
  get_nargs := Demo.f_nargs;
  get_first_bb f := snd <$> head (Demo.f_blocks f);
  get_bb := Demo.lookup_block;
  get_function := Demo.lookup_func;
  Memory_new := tt
|}.

Definition f_entry : Demo.stmt :=
  Demo.Instr Bop 10 "t" "" "" 3 0
    (Some (Demo.Instr Select 11 "u" "" "" 0 0
       (Some (Demo.Instr Ret 12 "" "" "" 5 0 None)))).
Definition f : Demo.func := Demo.mkFunc "f" 0 [("entry", f_entry)].

Definition main_entry : Demo.stmt :=
  Demo.Instr Sum 1 "a" "" "" 1 0
    (Some (Demo.Instr Call 2 "x" "f" "" 0 0
       (Some (Demo.Instr Ret 3 "" "x" "" 0 0 None)))).
Definition main : Demo.func := Demo.mkFunc "main" 0 [("entry", main_entry)].

Definition program : Demo.prog := [main; f].

Definition start : State Demo.prog unit := set_program program (State_new 0).

(** The run in doubles, the instructions it executes and what each
    adds to its accumulator, the state the run ends in, and the two sums
    over the taken path. *)
Definition run64 : Outcome Demo.prog unit :=
  @Rounded.exec_program _ _ _ _ graph binary64 100 start.

Definition path64 : list (Visit (Stmt := Demo.stmt)) :=
  @Rounded.executed_program _ _ _ _ graph binary64 100 start.


Definition ended64 : State Demo.prog unit :=
  match run64 with
  | Returned _ st | Fatal _ st => st
  | _ => start
  end.


Definition path_sum64 : Q := @Rounded.path_sum _ _ _ _ graph binary64 path64.



End Sums.

(** * Properties *)

(** ** The accumulators and the log *)

Section Books.
Context {Program Memory : Type}.
Implicit Types st : State Program Memory.

Lemma nodes_add_cost p c st :
  nodes (add_cost p c st) = alter (CostStack_add_cost c) p (nodes st).
Proof. reflexivity. Qed.

Lemma length_nodes_add_cost p c st :
  length (nodes (add_cost p c st)) = length (nodes st).
Proof. rewrite nodes_add_cost. apply length_alter. Qed.

Lemma get_cost_add_cost_eq p c st :
  p < length (nodes st) ->
  get_cost p (add_cost p c st) = (get_cost p st + c)%Q.
Proof.
  intros Hp. unfold get_cost. rewrite nodes_add_cost, list_lookup_alter_eq.
  destruct (lookup_lt_is_Some_2 _ _ Hp) as [n ->]. reflexivity.
Qed.

Lemma get_cost_add_cost_ne p q c st :
  p <> q -> get_cost q (add_cost p c st) = get_cost q st.
Proof.
  intros Hne. unfold get_cost.
  by rewrite nodes_add_cost, list_lookup_alter_ne.
Qed.

Lemma update_cost_log_Some opcode b w st st' :
  update_cost_log opcode b w st = Some st' ->
  (inst_count st opcode < INT_MAX)%Z /\
  regfile st' = regfile st /\ memory st' = memory st /\
  nodes st' = nodes st /\ main_cost st' = main_cost st /\
  program st' = program st /\ error_line_num st' = error_line_num st /\
  total_wait_cost st' = (total_wait_cost st + w)%Q /\
  (forall o, cost_per_inst st' o =
             if decide (o = opcode) then (cost_per_inst st o + b)%Q
             else cost_per_inst st o) /\
  (forall o, inst_count st' o =
             if decide (o = opcode) then (inst_count st o + 1)%Z
             else inst_count st o).
Proof.
  unfold update_cost_log. case_eq (inst_count st opcode <? INT_MAX)%Z; [|done].
  intros Hlt [= <-]. apply Z.ltb_lt in Hlt. cbn.
  repeat split; try done; intros o; unfold array_set; by case_decide; subst.
Qed.

Lemma update_cost_log_defined opcode b w st :
  (inst_count st opcode < INT_MAX)%Z ->
  is_Some (update_cost_log opcode b w st).
Proof.
  intros Hlt. unfold update_cost_log.
  apply Z.ltb_lt in Hlt. rewrite Hlt. eauto.
Qed.

Lemma sum_costs_bump (f g : Opcode -> Q) opcode b :
  (forall o, g o = if decide (o = opcode) then (f o + b)%Q else f o) ->
  (sum_costs g == sum_costs f + b)%Q.
Proof.
  intros Hg. unfold sum_costs, all_opcodes. cbn [map foldr].
  rewrite !Hg.
  destruct opcode;
    repeat first [rewrite decide_True by done | rewrite decide_False by done];
    ring.
Qed.

Lemma charged_nodes cost opcode b w st st' :
  charged cost opcode b w st st' ->
  nodes st' = alter (CostStack_add_cost (b + w)) cost (nodes st).
Proof.
  intros (st0 & (Hn&_) & Hup).
  apply update_cost_log_Some in Hup as (_&_&_&->&_).
  by rewrite nodes_add_cost, Hn.
Qed.

Lemma charged_books cost opcode b w st st' :
  charged cost opcode b w st st' ->
  main_cost st' = main_cost st /\ program st' = program st /\
  total_wait_cost st' = (total_wait_cost st + w)%Q /\
  (forall o, cost_per_inst st' o =
             if decide (o = opcode) then (cost_per_inst st o + b)%Q
             else cost_per_inst st o) /\
  (forall o, inst_count st' o =
             if decide (o = opcode) then (inst_count st o + 1)%Z
             else inst_count st o).
Proof.
  intros (st0 & (_&Hm&Hw&Hc&Hi&Hp) & Hup).
  apply update_cost_log_Some in Hup as (_&_&_&_&Hm'&Hp'&_&Hw'&Hc'&Hi').
  cbn in *. rewrite Hm', Hp', Hw'. repeat split; try congruence.
  - intros o. rewrite Hc'. cbn. by rewrite Hc.
  - intros o. rewrite Hi'. cbn. by rewrite Hi.
Qed.

Lemma charged_total cost opcode b w st st' :
  charged cost opcode b w st st' ->
  (log_total st' == log_total st + (b + w))%Q.
Proof.
  intros H. apply charged_books in H as (_&_&Hw&Hc&_).
  unfold log_total. rewrite Hw, (sum_costs_bump (cost_per_inst st) _ opcode b Hc).
  ring.
Qed.

End Books.

(** ** One turn of the loop *)

Section Dispatch.
Context {Stmt Function Program Memory : Type}.
Context `{!Graph Stmt Function Program Memory}.
Implicit Types (st : State Program Memory) (curr : Stmt).
Implicit Types (function : Function) (parent : option nat).

Lemma same_books_line line st : same_books st (set_error_line_num line st).
Proof. by repeat split. Qed.

(** Whatever the opcode, a turn that does not fail charges the
    instruction once, with the pair [instr_cost]; a turn that fails
    leaves everything but the recorded line as it was. *)
Lemma dispatch_charges parent function cost curr st :
  match dispatch parent function cost curr st with
  | Goto _ st' | Invoke _ _ st' =>
      charged cost (get_opcode curr) (instr_cost cost curr st).1
        (instr_cost cost curr st).2 st st'
  | Halt (Returned _ st') =>
      exists st1,
        charged cost (get_opcode curr) (instr_cost cost curr st).1
          (instr_cost cost curr st).2 st st1 /\
        st' = propagate parent cost st1
  | Halt (Fatal _ st') => st' = set_error_line_num (get_line curr) st
  | Halt Undefined => True
  | Halt OutOfFuel => False
  end.
Proof.
  unfold dispatch, instr_cost.
  destruct (get_opcode curr) eqn:Hop; cbn zeta.
  all: try (destruct (stmt_exec curr _ _ _) as [b w rf mem|msg] eqn:Hex;
            [|reflexivity];
            match goal with
            | |- context [update_cost_log ?o ?b ?w ?s] =>
                destruct (update_cost_log o b w s) eqn:Hup; [|exact I]
            end;
            exists (set_memory mem (set_regfile rf
                      (set_error_line_num (get_line curr) st)));
            split; [by repeat split | exact Hup]).
  - (* Ret *)
    destruct (update_cost_log _ _ _ _) eqn:Hup; [|exact I].
    eexists. split; [|reflexivity].
    exists (set_error_line_num (get_line curr) st).
    split; [apply same_books_line | exact Hup].
  - (* BrUncond *)
    destruct (get_bb _ _); [|reflexivity].
    destruct (update_cost_log _ _ _ _) eqn:Hup; [|exact I].
    exists (set_error_line_num (get_line curr) st).
    split; [apply same_books_line | exact Hup].
  - (* BrCond *)
    destruct (get_bb _ _); [|reflexivity].
    destruct (update_cost_log _ _ _ _) eqn:Hup; [|exact I].
    exists (set_error_line_num (get_line curr) st).
    split; [apply same_books_line | exact Hup].
  - (* Switch *)
    destruct (get_bb _ _); [|reflexivity].
    destruct (update_cost_log _ _ _ _) eqn:Hup; [|exact I].
    exists (set_error_line_num (get_line curr) st).
    split; [apply same_books_line | exact Hup].
  - (* Call *)
    cbn [program set_error_line_num].
    destruct (program st) as [prog|]; [|exact I].
    destruct (get_function prog _) as [callee|]; [|reflexivity].
    destruct (decide (get_nargs callee <> call_get_nargs curr)) as [|Heq];
      [reflexivity|].
    apply dec_stable in Heq.
    destruct (update_cost_log _ _ _ _) eqn:Hup; [|exact I].
    rewrite <- Heq.
    eexists. split; [|exact Hup]. by repeat split.
Qed.

End Dispatch.

(** ** A whole activation *)

Section Activation.
Context {Stmt Function Program Memory : Type}.
Context `{!Graph Stmt Function Program Memory}.
Implicit Types (st : State Program Memory) (curr : Stmt).
Implicit Types (function : Function) (parent : option nat).

Lemma charged_length cost opcode b w st st' :
  charged cost opcode b w st st' -> length (nodes st') = length (nodes st).
Proof. intros H. rewrite (charged_nodes _ _ _ _ _ _ H). apply length_alter. Qed.

Lemma charged_get_cost_eq cost opcode b w st st' :
  charged cost opcode b w st st' -> cost < length (nodes st) ->
  get_cost cost st' = (get_cost cost st + (b + w))%Q.
Proof.
  intros H Hc. unfold get_cost.
  rewrite (charged_nodes _ _ _ _ _ _ H), list_lookup_alter_eq.
  destruct (lookup_lt_is_Some_2 _ _ Hc) as [n ->]. reflexivity.
Qed.

Lemma charged_get_cost_ne cost q opcode b w st st' :
  charged cost opcode b w st st' -> q <> cost ->
  get_cost q st' = get_cost q st.
Proof.
  intros H Hne. unfold get_cost.
  by rewrite (charged_nodes _ _ _ _ _ _ H), list_lookup_alter_ne.
Qed.

(** All that one charge changes: the accumulator charged, one cell and
    one count of the log, and the wait total. *)
Lemma charged_effect cost opcode b w st st' :
  charged cost opcode b w st st' -> cost < length (nodes st) ->
  get_cost cost st' = (get_cost cost st + (b + w))%Q /\
  (forall q, q <> cost -> get_cost q st' = get_cost q st) /\
  cost_per_inst st' opcode = (cost_per_inst st opcode + b)%Q /\
  (forall o, o <> opcode -> cost_per_inst st' o = cost_per_inst st o) /\
  inst_count st' opcode = (inst_count st opcode + 1)%Z /\
  (forall o, o <> opcode -> inst_count st' o = inst_count st o) /\
  total_wait_cost st' = (total_wait_cost st + w)%Q.
Proof.
  intros Hch Hc.
  split; [by apply (charged_get_cost_eq _ _ _ _ _ _ Hch)|].
  split; [intros q Hq; by apply (charged_get_cost_ne _ _ _ _ _ _ _ Hch)|].
  apply charged_books in Hch as (_&_&Hw&Hcp&Hic).
  split; [by rewrite Hcp, decide_True|].
  split; [intros o Ho; by rewrite Hcp, decide_False|].
  split; [by rewrite Hic, decide_True|].
  split; [intros o Ho; by rewrite Hic, decide_False|done].
Qed.

(** Entering an activation under the accumulator [p]: the fresh node is
    made at the end of the store and appended to the callees of [p];
    nothing else of the state changes. *)
Lemma enter_under p function st n :
  nodes st !! p = Some n ->
  exists st1,
    enter (Some p) function st = (length (nodes st), st1) /\
    nodes st1 !! length (nodes st) = Some (CostStack_new (get_fname function)) /\
    nodes st1 !! p = Some (CostStack_set_callee (length (nodes st)) n) /\
    length (nodes st1) = S (length (nodes st)) /\
    regfile st1 = regfile st /\ memory st1 = memory st /\
    main_cost st1 = main_cost st /\ program st1 = program st /\
    error_line_num st1 = error_line_num st /\
    total_wait_cost st1 = total_wait_cost st /\
    cost_per_inst st1 = cost_per_inst st /\ inst_count st1 = inst_count st.
Proof.
  intros Hn. pose proof (lookup_lt_Some _ _ _ Hn) as Hp.
  unfold enter, new_CostStack, set_callee. eexists. split; [reflexivity|]. cbn.
  rewrite length_alter, length_app. cbn.
  split; [by rewrite list_lookup_alter_ne, lookup_app_r, Nat.sub_diag by lia|].
  split; [by rewrite list_lookup_alter_eq, lookup_app_l, Hn by done|].
  repeat split; lia.
Qed.

Lemma charged_accounts cost opcode b w st st' :
  charged cost opcode b w st st' -> cost < length (nodes st) ->
  length (nodes st') = length (nodes st) /\
  main_cost st' = main_cost st /\
  (forall q, q <> cost -> get_cost q st' = get_cost q st) /\
  (get_cost cost st' - get_cost cost st == log_total st' - log_total st)%Q.
Proof.
  intros H Hc. split; [by eapply charged_length|].
  split; [by apply charged_books in H as (?&_)|].
  split; [intros q; by eapply charged_get_cost_ne|].
  rewrite (charged_get_cost_eq _ _ _ _ _ _ H Hc), (charged_total _ _ _ _ _ _ H).
  ring.
Qed.

Lemma enter_inv parent function st c st1 :
  enter parent function st = (c, st1) ->
  (forall p, parent = Some p -> p < length (nodes st)) ->
  c = length (nodes st) /\
  length (nodes st1) = S (length (nodes st)) /\
  get_cost c st1 = 0%Q /\
  (forall q, q < length (nodes st) -> get_cost q st1 = get_cost q st) /\
  log_total st1 = log_total st /\
  main_cost st1 = match parent with None => Some c | Some _ => main_cost st end.
Proof.
  unfold enter, new_CostStack. intros Hent Hpar.
  assert (Hfresh : forall l : list CostStack,
            from_option cost 0%Q
              ((l ++ [CostStack_new (get_fname function)])%list !! length l) = 0%Q).
  { intros l. by rewrite lookup_app_r, Nat.sub_diag by lia. }
  destruct parent as [p|]; injection Hent as <- <-.
  - specialize (Hpar p eq_refl). unfold get_cost, set_callee. cbn.
    rewrite length_alter, length_app. cbn.
    repeat split; [lia|..].
    + rewrite list_lookup_alter_ne by lia. apply Hfresh.
    + intros q Hq. destruct (decide (p = q)) as [->|Hne].
      * rewrite list_lookup_alter_eq, lookup_app_l by done.
        by destruct (nodes st !! q).
      * by rewrite list_lookup_alter_ne, lookup_app_l by done.
  - unfold get_cost. cbn. rewrite length_app. cbn.
    repeat split; [lia|apply Hfresh|].
    intros q Hq. by rewrite lookup_app_l.
Qed.

Lemma accounts_after parent cost st st1 st' :
  length (nodes st) <= length (nodes st1) ->
  main_cost st1 = main_cost st ->
  (forall q, q < length (nodes st) -> q <> cost ->
             get_cost q st1 = get_cost q st) ->
  (get_cost cost st1 - get_cost cost st == log_total st1 - log_total st)%Q ->
  (forall p, parent = Some p -> p < length (nodes st) /\ p <> cost) ->
  accounts parent cost st1 st' -> accounts parent cost st st'.
Proof.
  intros Hlen Hmain Hframe Hcost Hpar (Hlen'&Hmain'&Hframe'&Hcost'&Hpar').
  split; [lia|]. split; [congruence|]. split; [|split].
  - intros q Hq Hqc Hqp. rewrite Hframe' by (done || lia). by apply Hframe.
  - lra.
  - intros p ->. destruct (Hpar p eq_refl) as [Hp Hpc].
    rewrite (Hpar' p eq_refl), (Hframe p Hp Hpc). reflexivity.
Qed.

Lemma exec_function_with_accounts loop parent function st ret st' :
  loop_accounts loop ->
  (forall p, parent = Some p -> p < length (nodes st)) ->
  exec_function_with loop parent function st = Returned ret st' ->
  activation_accounts parent st st'.
Proof.
  intros Hloop Hpar. unfold exec_function_with.
  destruct (enter parent function st) as [c st1] eqn:Hent.
  destruct (enter_inv _ _ _ _ _ Hent Hpar) as (->&Hlen&Hzero&Hold&Hlog&Hmain).
  destruct (get_first_bb function) as [first|]; [|discriminate].
  intros Hrun. apply Hloop in Hrun as (Hlen'&Hmain'&Hframe'&Hcost'&Hpar').
  - split; [lia|]. split; [congruence|]. split; [|split].
    + intros q Hq Hqp. rewrite Hframe' by (done || lia). by apply Hold.
    + rewrite Hzero, Hlog in Hcost'. lra.
    + intros p ->. rewrite (Hpar' p eq_refl), Hold by eauto. reflexivity.
  - lia.
  - intros p ->. specialize (Hpar p eq_refl). lia.
Qed.

Lemma propagate_accounts parent cost st :
  cost < length (nodes st) ->
  (forall p, parent = Some p -> p < length (nodes st) /\ p <> cost) ->
  accounts parent cost st (propagate parent cost st).
Proof.
  intros Hc Hpar. destruct parent as [p|]; cbn.
  - destruct (Hpar p eq_refl) as [Hp Hpc].
    split; [by rewrite length_nodes_add_cost|]. split; [done|].
    split; [|split].
    + intros q _ _ Hqp. apply get_cost_add_cost_ne. congruence.
    + rewrite get_cost_add_cost_ne by done.
      change (log_total (add_cost p (get_cost cost st) st)) with (log_total st).
      ring.
    + intros ? [= <-].
      rewrite get_cost_add_cost_eq, get_cost_add_cost_ne by done. reflexivity.
  - split; [done|]. split; [done|]. split; [done|]. split; [ring|done].
Qed.

(** The loop of an activation that returns keeps the books. *)
Lemma exec_loop_accounts fuel : loop_accounts (exec_loop fuel).
Proof.
  induction fuel as [|fuel IH]; intros parent function cost curr st ret st' Hc Hpar;
    [discriminate|].
  cbn [exec_loop]. destruct curr as [curr|]; [|discriminate].
  pose proof (dispatch_charges parent function cost curr st) as Hd.
  destruct (dispatch parent function cost curr st) as [out|curr' st1|callee old st1].
  - intros ->. destruct Hd as (st1 & Hch & ->).
    destruct (charged_accounts _ _ _ _ _ _ Hch Hc) as (Hlen&Hmain&Hframe&Hcost).
    apply (accounts_after _ _ st st1); [lia|done|auto|done|done|].
    apply propagate_accounts; rewrite Hlen; done.
  - intros Hrun.
    destruct (charged_accounts _ _ _ _ _ _ Hd Hc) as (Hlen&Hmain&Hframe&Hcost).
    apply (accounts_after _ _ st st1); [lia|done|auto|done|done|].
    eapply IH; eauto; rewrite Hlen; done.
  - destruct (exec_function_with _ _ _ _) as [r st2| | |] eqn:Hcallee;
      try discriminate.
    intros Hrun.
    destruct (charged_accounts _ _ _ _ _ _ Hd Hc) as (Hlen&Hmain&Hframe&Hcost).
    apply exec_function_with_accounts in Hcallee
      as (Hlen2&Hmain2&Hframe2&Hcost2&Hpar2); [|exact IH|].
    2:{ intros ? [= <-]. lia. }
    specialize (Hpar2 cost eq_refl).
    apply IH in Hrun as Hacc; cbn [finish_call set_regfile nodes]; [| lia |].
    2:{ intros p Hp. destruct (Hpar p Hp). split; [lia|done]. }
    eapply accounts_after; [| | | | exact Hpar | exact Hacc].
    + cbn. lia.
    + cbn. congruence.
    + intros q Hq Hqc.
      change (get_cost q (finish_call curr old r st2)) with (get_cost q st2).
      rewrite Hframe2 by (congruence || lia). by apply Hframe.
    + change (get_cost cost (finish_call curr old r st2)) with (get_cost cost st2).
      change (log_total (finish_call curr old r st2)) with (log_total st2).
      rewrite Hpar2. lra.
Qed.

(** Nodes are made, never removed. *)
Lemma exec_loop_length fuel parent function cost (cursor : option Stmt) st ret st' :
  exec_loop fuel parent function cost cursor st = Returned ret st' ->
  length (nodes st) <= length (nodes st').
Proof.
  revert parent function cost cursor st ret st'.
  induction fuel as [|fuel IH]; intros parent function cost cursor st ret st';
    [discriminate|].
  cbn [exec_loop]. destruct cursor as [curr|]; [|discriminate].
  pose proof (dispatch_charges parent function cost curr st) as Hd.
  destruct (dispatch parent function cost curr st) as [out|curr' st1|callee old st1].
  - intros ->. destruct Hd as (st1 & Hch & ->).
    apply charged_length in Hch.
    destruct parent; cbn; rewrite ?length_alter; lia.
  - intros Hrun. apply charged_length in Hd. apply IH in Hrun. lia.
  - apply charged_length in Hd. unfold exec_function_with, enter, new_CostStack.
    destruct (get_first_bb callee) as [first|]; [|discriminate].
    destruct (exec_loop fuel _ _ _ _ _) as [r st2| | |] eqn:Hcallee;
      try discriminate.
    intros Hrun. apply IH in Hrun. apply IH in Hcallee. cbn in *.
    rewrite length_alter, length_app in Hcallee. lia.
Qed.

(** A node keeps its name whatever runs. *)
Lemma exec_loop_names fuel parent function cost (cursor : option Stmt) st ret st' q :
  exec_loop fuel parent function cost cursor st = Returned ret st' ->
  q < length (nodes st) ->
  fname <$> nodes st' !! q = fname <$> nodes st !! q.
Proof.
  revert parent function cost cursor st ret st'.
  induction fuel as [|fuel IH]; intros parent function cost cursor st ret st';
    [discriminate|].
  cbn [exec_loop]. destruct cursor as [curr|]; [|discriminate].
  pose proof (dispatch_charges parent function cost curr st) as Hd.
  assert (Halter : forall f (l : list CostStack),
            (forall n, fname (f n) = fname n) ->
            fname <$> alter f cost l !! q = fname <$> l !! q).
  { intros f l Hf. destruct (decide (cost = q)) as [->|Hne].
    - rewrite list_lookup_alter_eq. destruct (l !! q); cbn; by rewrite ?Hf.
    - by rewrite list_lookup_alter_ne. }
  destruct (dispatch parent function cost curr st) as [out|curr' st1|callee old st1].
  - intros -> Hq. destruct Hd as (st1 & Hch & ->).
    apply charged_nodes in Hch.
    transitivity (fname <$> nodes st1 !! q); [|rewrite Hch; by apply Halter].
    destruct parent as [p|]; [|done]. cbn.
    destruct (decide (p = q)) as [->|Hne].
    + rewrite list_lookup_alter_eq. by destruct (nodes st1 !! q).
    + by rewrite list_lookup_alter_ne.
  - intros Hrun Hq. pose proof (charged_length _ _ _ _ _ _ Hd) as Hlen.
    apply charged_nodes in Hd.
    rewrite (IH _ _ _ _ _ _ _ Hrun) by lia. rewrite Hd. by apply Halter.
  - pose proof (charged_length _ _ _ _ _ _ Hd) as Hlen.
    apply charged_nodes in Hd. unfold exec_function_with, enter, new_CostStack.
    destruct (get_first_bb callee) as [first|]; [|discriminate].
    destruct (exec_loop fuel _ _ _ _ _) as [r st2| | |] eqn:Hcallee;
      try discriminate.
    intros Hrun Hq.
    pose proof (exec_loop_length _ _ _ _ _ _ _ _ Hcallee) as Hlen2.
    cbn in Hlen2. rewrite length_alter, length_app in Hlen2. cbn in Hlen2.
    rewrite (IH _ _ _ _ _ _ _ Hrun) by (cbn; lia). cbn.
    rewrite (IH _ _ _ _ _ _ _ Hcallee).
    2:{ cbn. rewrite length_alter, length_app. cbn. lia. }
    cbn. rewrite Halter by done. rewrite lookup_app_l by lia.
    rewrite Hd. by apply Halter.
Qed.

Lemma exec_loop_S fuel parent function cost (cursor : option Stmt) st :
  exec_loop (S fuel) parent function cost cursor st =
  match cursor with
  | None => Undefined
  | Some curr =>
      match dispatch parent function cost curr st with
      | Halt out => out
      | Goto curr' st' => exec_loop fuel parent function cost curr' st'
      | Invoke callee old st' =>
          match exec_function fuel (Some cost) callee st' with
          | Returned ret st'' =>
              exec_loop fuel parent function cost (get_next curr)
                (finish_call curr old ret st'')
          | out => out
          end
      end
  end.
Proof. reflexivity. Qed.

(** Once a run has ended, a larger budget ends it the same way. *)
Lemma exec_loop_more_fuel fuel parent function cost (cursor : option Stmt) st out :
  exec_loop fuel parent function cost cursor st = out ->
  out <> OutOfFuel ->
  exec_loop (S fuel) parent function cost cursor st = out.
Proof.
  revert parent function cost cursor st out.
  induction fuel as [|fuel IH]; intros parent function cost cursor st out;
    [by intros <-|].
  intros Hrun Hout. rewrite exec_loop_S in Hrun |- *.
  destruct cursor as [curr|]; [|done].
  destruct (dispatch parent function cost curr st) as [o|curr' st1|callee old st1];
    [done|by apply IH|].
  unfold exec_function, exec_function_with in *.
  destruct (enter (Some cost) callee st1) as [c st2].
  destruct (get_first_bb callee) as [first|]; [|done].
  destruct (exec_loop fuel (Some cost) callee c (Some first) st2)
    as [r st3|msg st3| |] eqn:Hcallee.
  - rewrite (IH _ _ _ _ _ _ Hcallee) by done. by apply IH.
  - by rewrite (IH _ _ _ _ _ _ Hcallee).
  - by rewrite (IH _ _ _ _ _ _ Hcallee).
  - by subst out.
Qed.

Lemma exec_function_accounts fuel parent function st ret st' :
  (forall p, parent = Some p -> p < length (nodes st)) ->
  exec_function fuel parent function st = Returned ret st' ->
  activation_accounts parent st st'.
Proof. apply exec_function_with_accounts, exec_loop_accounts. Qed.

End Activation.

(** ** The log along the taken path *)

Section Journey.
Context {Stmt Function Program Memory : Type}.
Context `{!Graph Stmt Function Program Memory}.
Implicit Types (st : State Program Memory) (curr : Stmt).
Implicit Types (function : Function) (parent : option nat).
Implicit Types (path : list (Visit (Stmt := Stmt) (Program := Program) (Memory := Memory))).











Lemma log_le_refl st : log_le st st.
Proof. repeat split; intros; (lia || apply Qle_refl). Qed.






End Journey.

(** ** The properties of the specification *)

Section Claims.
Context {Stmt Function Program Memory : Type}.
Context `{!Graph Stmt Function Program Memory}.
Implicit Types (st : State Program Memory) (curr : Stmt).
Implicit Types (function : Function) (parent : option nat).



(** C5.  [exec_program] looks [main] up in the program: without it the
    run fails with "missing main function", nothing else done; with it
    the run is the activation of [main] without a parent, whose
    accumulator is installed as the root before its first instruction,
    and the outcome of the program is the outcome of that activation. *)
Theorem exec_program_runs_main fuel st prog :
  program st = Some prog ->
  (get_function prog "main" = None ->
   exec_program fuel st = Fatal "missing main function" st) /\
  (forall main, get_function prog "main" = Some main ->
     exec_program fuel st = exec_function fuel None main st /\
     (forall ret st', exec_function fuel None main st = Returned ret st' ->
        exec_program fuel st = Returned ret st' /\
        main_cost st' = Some (length (nodes st)) /\
        fname <$> nodes st' !! length (nodes st) = Some (get_fname main))).
Proof.
  intros Hprog. unfold exec_program. rewrite Hprog. split.
  - by intros ->.
  - intros main ->. split; [done|]. intros ret st' Hrun. split; [done|].
    pose proof Hrun as Hacc.
    apply exec_function_accounts in Hacc as (_&Hmain&_); [|discriminate].
    split; [done|].
    revert Hrun. unfold exec_function, exec_function_with, enter, new_CostStack.
    destruct (get_first_bb main) as [first|]; [|discriminate].
    intros Hrun.
    rewrite (exec_loop_names _ _ _ _ _ _ _ _ (length (nodes st)) Hrun).
    + cbn. by rewrite lookup_app_r, Nat.sub_diag by lia.
    + cbn. rewrite length_app. cbn. lia.
Qed.

(** C10.  Whatever the function, [exec_function] first makes a fresh
    accumulator, named after the function, with cost 0 and no callees,
    and links it: as the root when there is no parent, else at the end of
    the parent's callee list.  Only then is the entry block looked up and
    the loop started, so a run that fails with "missing first basic
    block" fails in a state that already holds the linked node. *)
Theorem accumulator_linked_on_entry fuel parent function st :
  (forall p, parent = Some p -> p < length (nodes st)) ->
  let c := length (nodes st) in
  exists st1,
    enter parent function st = (c, st1) /\
    nodes st1 !! c = Some (mkCostStack (get_fname function) 0 []) /\
    length (nodes st1) = S c /\
    match parent with
    | None => main_cost st1 = Some c
    | Some p =>
        main_cost st1 = main_cost st /\
        exists n, nodes st !! p = Some n /\
          nodes st1 !! p = Some (mkCostStack (fname n) (cost n) (callees n ++ [c]))
    end /\
    exec_function fuel parent function st =
      match get_first_bb function with
      | None => Fatal "missing first basic block" st1
      | Some first => exec_loop fuel parent function c (Some first) st1
      end.
Proof.
  intros Hpar. cbn zeta.
  unfold exec_function, exec_function_with, enter, new_CostStack.
  destruct parent as [p|]; eexists; (split; [reflexivity|]); cbn.
  - specialize (Hpar p eq_refl).
    destruct (lookup_lt_is_Some_2 _ _ Hpar) as [n Hn].
    rewrite length_alter, length_app. cbn.
    split; [|split; [lia|split; [split; [done|]|done]]].
    + rewrite list_lookup_alter_ne by lia.
      by rewrite lookup_app_r, Nat.sub_diag by lia.
    + exists n. split; [done|].
      by rewrite list_lookup_alter_eq, lookup_app_l, Hn by done.
  - rewrite length_app. cbn.
    split; [|split; [lia|done]].
    by rewrite lookup_app_r, Nat.sub_diag by lia.
Qed.

(** C3.  A call of a function the program does not have fails with
    "calling an undefined function"; a call whose argument count differs
    from the one the callee declares fails with "calling with incorrect
    number of arguments".  Either way the run is aborted in the state the
    call was reached in, with only the line of the call recorded: the
    register file, the memory, every accumulator and the log are as
    before. *)
Theorem call_failures_have_no_effect fuel parent function cost curr st prog :
  get_opcode curr = Call ->
  program st = Some prog ->
  let failed := set_error_line_num (get_line curr) st in
  (get_function prog (call_get_fname curr) = None ->
   exec_loop (S fuel) parent function cost (Some curr) st =
     Fatal "calling an undefined function" failed) /\
  (forall callee,
     get_function prog (call_get_fname curr) = Some callee ->
     get_nargs callee <> call_get_nargs curr ->
     exec_loop (S fuel) parent function cost (Some curr) st =
       Fatal "calling with incorrect number of arguments" failed) /\
  regfile failed = regfile st /\ memory failed = memory st /\
  nodes failed = nodes st /\ main_cost failed = main_cost st /\
  total_wait_cost failed = total_wait_cost st /\
  cost_per_inst failed = cost_per_inst st /\
  inst_count failed = inst_count st.
Proof.
  intros Hop Hprog. cbn zeta.
  split; [|split; [|by repeat split]].
  - intros Hnone. cbn [exec_loop]. unfold dispatch. rewrite Hop. cbn zeta.
    cbn [program set_error_line_num]. by rewrite Hprog, Hnone.
  - intros callee Hsome Hne. cbn [exec_loop]. unfold dispatch. rewrite Hop.
    cbn zeta. cbn [program set_error_line_num]. rewrite Hprog, Hsome.
    by rewrite decide_True.
Qed.

(** The turn of a branch or a switch whose label names a block: the
    loop is sent to that block, with the register file and the memory
    it had. *)
Lemma branch_turn parent function cost curr st target :
  get_opcode curr = BrUncond \/ get_opcode curr = BrCond \/
  get_opcode curr = Switch ->
  get_bb function (branch_label cost curr st) = Some target ->
  (inst_count st (get_opcode curr) < INT_MAX)%Z ->
  exists st',
    dispatch parent function cost curr st = Goto (Some target) st' /\
    regfile st' = regfile st /\ memory st' = memory st.
Proof.
  intros Hop Hsome Hlt. revert Hsome. unfold branch_label, dispatch.
  destruct Hop as [Hop|[Hop|Hop]]; rewrite Hop in *; cbn zeta;
    cbn [regfile set_error_line_num];
    change (get_cost cost (set_error_line_num (get_line curr) st))
      with (get_cost cost st);
    intros ->;
    (destruct (update_cost_log _ _ _ _) as [st'|] eqn:Hup;
     [|unfold update_cost_log in Hup; cbn in Hup;
       apply Z.ltb_lt in Hlt; by rewrite Hlt in Hup]);
    apply update_cost_log_Some in Hup as (_&Hrf&Hmem&_);
    exists st'; by repeat split.
Qed.

(** C4.  A branch or a switch whose label names no block of the current
    function aborts the run with "branching to an undefined basic block":
    the state of the abort has the line of the branch recorded and is
    otherwise the state the branch was reached in, so no accumulator and
    no log entry has changed.  When the label names a block, the turn of
    the branch sends the loop to that block in a state in which its cost
    has been charged: base plus stall went to the accumulator of the
    activation and to no other, the base cost alone to the cost cell of
    its opcode and to no other cell, one to the count of its opcode, the
    stall to the wait total; register file and memory are as before.  The
    base cost is [BRUNCOND] with no stall for an unconditional branch,
    [BRCOND_TRUE] or [BRCOND_FALSE] for a conditional one, [SWITCH] for
    a switch. *)
Theorem branch_resolves_or_aborts fuel parent function cost curr st :
  get_opcode curr = BrUncond \/ get_opcode curr = BrCond \/
  get_opcode curr = Switch ->
  let failed := set_error_line_num (get_line curr) st in
  let now := get_cost cost st in
  let price := instr_cost cost curr st in
  (get_bb function (branch_label cost curr st) = None ->
   dispatch parent function cost curr st =
     Halt (Fatal "branching to an undefined basic block" failed) /\
   exec_loop (S fuel) parent function cost (Some curr) st =
     Fatal "branching to an undefined basic block" failed /\
   error_line_num failed = get_line curr /\
   regfile failed = regfile st /\ memory failed = memory st /\
   nodes failed = nodes st /\ main_cost failed = main_cost st /\
   total_wait_cost failed = total_wait_cost st /\
   cost_per_inst failed = cost_per_inst st /\
   inst_count failed = inst_count st) /\
  (forall target,
     get_bb function (branch_label cost curr st) = Some target ->
     cost < length (nodes st) ->
     (inst_count st (get_opcode curr) < INT_MAX)%Z ->
     exists st',
       dispatch parent function cost curr st = Goto (Some target) st' /\
       exec_loop (S fuel) parent function cost (Some curr) st =
         exec_loop fuel parent function cost (Some target) st' /\
       get_cost cost st' = (now + (price.1 + price.2))%Q /\
       (forall q, q <> cost -> get_cost q st' = get_cost q st) /\
       cost_per_inst st' (get_opcode curr) =
         (cost_per_inst st (get_opcode curr) + price.1)%Q /\
       (forall o, o <> get_opcode curr ->
                  cost_per_inst st' o = cost_per_inst st o) /\
       inst_count st' (get_opcode curr) =
         (inst_count st (get_opcode curr) + 1)%Z /\
       (forall o, o <> get_opcode curr -> inst_count st' o = inst_count st o) /\
       total_wait_cost st' = (total_wait_cost st + price.2)%Q /\
       regfile st' = regfile st /\ memory st' = memory st) /\
  (get_opcode curr = BrUncond ->
   branch_label cost curr st = bruncond_get_bb curr /\
   price = (Cost.BRUNCOND, 0%Q)) /\
  (get_opcode curr = BrCond ->
   branch_label cost curr st = (brcond_get_bb curr now (regfile st)).1 /\
   price = (if brcond_get_eval curr now (regfile st)
            then Cost.BRCOND_TRUE else Cost.BRCOND_FALSE,
            (brcond_get_bb curr now (regfile st)).2)) /\
  (get_opcode curr = Switch ->
   branch_label cost curr st = (switch_get_bb curr now (regfile st)).1 /\
   price = (Cost.SWITCH, (switch_get_bb curr now (regfile st)).2)).
Proof.
  intros Hop. cbn zeta.
  split; [|split; [|split; [|split]]].
  - intros Hnone.
    assert (Hd : dispatch parent function cost curr st =
                 Halt (Fatal "branching to an undefined basic block"
                         (set_error_line_num (get_line curr) st))).
    { revert Hnone. unfold branch_label, dispatch.
      destruct Hop as [Hop|[Hop|Hop]]; rewrite Hop in *; cbn zeta;
        cbn [regfile set_error_line_num];
        change (get_cost cost (set_error_line_num (get_line curr) st))
          with (get_cost cost st); by intros ->. }
    split; [exact Hd|]. split; [by rewrite exec_loop_S, Hd|]. by repeat split.
  - intros target Hsome Hc Hlt.
    destruct (branch_turn parent function cost curr st target Hop Hsome Hlt)
      as (st' & Hd & Hrf & Hmem).
    pose proof (dispatch_charges parent function cost curr st) as Hch.
    rewrite Hd in Hch.
    destruct (charged_effect _ _ _ _ _ _ Hch Hc) as (H1&H2&H3&H4&H5&H6&H7).
    exists st'. split; [exact Hd|]. split; [by rewrite exec_loop_S, Hd|].
    by repeat split.
  - unfold branch_label, instr_cost. by intros ->.
  - unfold branch_label, instr_cost. by intros ->.
  - unfold branch_label, instr_cost. by intros ->.
Qed.

(** C6.  A conditional branch whose chosen label names a block is
    charged [BRCOND_TRUE], 6, when its condition evaluated true and
    [BRCOND_FALSE], 1, when it evaluated false: the turn of the branch
    yields a state in which that base cost plus the stall of the
    condition has gone to the accumulator of the activation and to no
    other, the base cost alone to the [BrCond] cell of the log, the
    stall to the wait total; the loop goes on at the chosen block in
    that state. *)
Theorem brcond_cost fuel parent function cost curr st target :
  let now := get_cost cost st in
  let bb := brcond_get_bb curr now (regfile st) in
  let inst_cost := if brcond_get_eval curr now (regfile st)
                   then Cost.BRCOND_TRUE else Cost.BRCOND_FALSE in
  get_opcode curr = BrCond ->
  cost < length (nodes st) ->
  get_bb function bb.1 = Some target ->
  (inst_count st BrCond < INT_MAX)%Z ->
  exists st',
    dispatch parent function cost curr st = Goto (Some target) st' /\
    exec_loop (S fuel) parent function cost (Some curr) st =
      exec_loop fuel parent function cost (Some target) st' /\
    inst_cost = (if brcond_get_eval curr now (regfile st) then 6 else 1)%Q /\
    get_cost cost st' = (now + (inst_cost + bb.2))%Q /\
    (forall q, q <> cost -> get_cost q st' = get_cost q st) /\
    cost_per_inst st' BrCond = (cost_per_inst st BrCond + inst_cost)%Q /\
    (forall o, o <> BrCond -> cost_per_inst st' o = cost_per_inst st o) /\
    inst_count st' BrCond = (inst_count st BrCond + 1)%Z /\
    (forall o, o <> BrCond -> inst_count st' o = inst_count st o) /\
    total_wait_cost st' = (total_wait_cost st + bb.2)%Q /\
    regfile st' = regfile st /\ memory st' = memory st.
Proof.
  cbn zeta. intros Hop Hc Hsome Hlt.
  destruct (branch_turn parent function cost curr st target) as (st' & Hd & Hrf & Hmem).
  { by right; left. }
  { unfold branch_label. by rewrite Hop. }
  { by rewrite Hop. }
  pose proof (dispatch_charges parent function cost curr st) as Hch.
  rewrite Hd in Hch. unfold instr_cost in Hch. rewrite Hop in Hch.
  cbn [fst snd] in Hch.
  destruct (charged_effect _ _ _ _ _ _ Hch Hc) as (H1&H2&H3&H4&H5&H6&H7).
  exists st'. split; [exact Hd|]. split; [by rewrite exec_loop_S, Hd|].
  by repeat split.
Qed.

(** C7.  A call that finds its callee with the right argument count
    charges [CALL + n * PER_ARG] plus the stall of the argument setup to
    the accumulator of the caller and to the log, and hands over to the
    callee in the state so charged, with the register file the setup
    prepared and the caller's register file saved.  The callee is then
    executed with the caller's accumulator as its parent: a fresh
    accumulator named after the callee, with cost 0 and no callees, is
    appended to the callees of the caller's accumulator, and the loop of
    the callee runs from its entry block on that accumulator; a callee
    without an entry block fails with "missing first basic block".  When
    the callee returns, its total has been added to the caller's
    accumulator, the saved register file is put back with the return
    value written to the destination of the call, and the loop goes on at
    the statement after the call; any other outcome of the callee is the
    outcome of the caller. *)
Theorem call_cost_and_return fuel parent function cost curr st prog callee :
  let n := call_get_nargs curr in
  let args := call_setup_args curr (get_cost cost st) (regfile st)
                (set_nargs n (regfile st)) in
  let inst_cost := (Cost.CALL + inject_Z n * Cost.PER_ARG)%Q in
  let c := length (nodes st) in
  get_opcode curr = Call ->
  cost < length (nodes st) ->
  program st = Some prog ->
  get_function prog (call_get_fname curr) = Some callee ->
  get_nargs callee = n ->
  (inst_count st Call < INT_MAX)%Z ->
  exists st1 st2 caller,
    dispatch parent function cost curr st = Invoke callee (regfile st) st1 /\
    get_cost cost st1 = (get_cost cost st + (inst_cost + args.1))%Q /\
    (forall q, q <> cost -> get_cost q st1 = get_cost q st) /\
    cost_per_inst st1 Call = (cost_per_inst st Call + inst_cost)%Q /\
    (forall o, o <> Call -> cost_per_inst st1 o = cost_per_inst st o) /\
    inst_count st1 Call = (inst_count st Call + 1)%Z /\
    (forall o, o <> Call -> inst_count st1 o = inst_count st o) /\
    total_wait_cost st1 = (total_wait_cost st + args.1)%Q /\
    regfile st1 = args.2 /\
    nodes st1 !! cost = Some caller /\
    enter (Some cost) callee st1 = (c, st2) /\
    nodes st2 !! c = Some (mkCostStack (get_fname callee) 0 []) /\
    nodes st2 !! cost = Some (CostStack_set_callee c caller) /\
    length (nodes st2) = S c /\
    regfile st2 = args.2 /\
    exec_function fuel (Some cost) callee st1 =
      match get_first_bb callee with
      | None => Fatal "missing first basic block" st2
      | Some first => exec_loop fuel (Some cost) callee c (Some first) st2
      end /\
    exec_loop (S fuel) parent function cost (Some curr) st =
      match exec_function fuel (Some cost) callee st1 with
      | Returned ret st3 =>
          exec_loop fuel parent function cost (get_next curr)
            (set_regfile (write_reg (get_lhs curr) ret (regfile st)) st3)
      | out => out
      end /\
    (forall ret st3,
       exec_function fuel (Some cost) callee st1 = Returned ret st3 ->
       (get_cost cost st3 == get_cost cost st1 + get_cost c st3)%Q).
Proof.
  cbn zeta. intros Hop Hc Hprog Hsome Hn Hlt.
  assert (Hd : exists st1,
             dispatch parent function cost curr st = Invoke callee (regfile st) st1 /\
             regfile st1 =
               (call_setup_args curr (get_cost cost st) (regfile st)
                  (set_nargs (call_get_nargs curr) (regfile st))).2).
  { unfold dispatch. rewrite Hop. cbn zeta.
    cbn [program regfile set_error_line_num set_regfile].
    rewrite Hprog, Hsome, Hn, decide_False by (by intros []).
    change (get_cost cost (set_regfile _ (set_error_line_num (get_line curr) st)))
      with (get_cost cost st).
    destruct (update_cost_log _ _ _ _) as [st1|] eqn:Hup.
    2:{ unfold update_cost_log in Hup. cbn in Hup.
        apply Z.ltb_lt in Hlt. by rewrite Hlt in Hup. }
    apply update_cost_log_Some in Hup as (_&Hrf&_).
    exists st1. split; [reflexivity|exact Hrf]. }
  destruct Hd as (st1 & Hd & Hrf).
  pose proof (dispatch_charges parent function cost curr st) as Hch.
  rewrite Hd in Hch. unfold instr_cost in Hch. rewrite Hop in Hch.
  cbn [fst snd] in Hch.
  destruct (charged_effect _ _ _ _ _ _ Hch Hc) as (H1&H2&H3&H4&H5&H6&H7).
  pose proof (charged_length _ _ _ _ _ _ Hch) as Hlen.
  assert (Hc1 : cost < length (nodes st1)) by lia.
  destruct (lookup_lt_is_Some_2 _ _ Hc1) as [caller Hcaller].
  destruct (enter_under cost callee st1 caller Hcaller)
    as (st2 & Hent & Hnew & Hlink & Hlen2 & Hrf2 & _).
  rewrite Hlen in Hent, Hnew, Hlink, Hlen2.
  exists st1, st2, caller.
  split; [exact Hd|].
  do 8 (split; [done|]).
  split; [exact Hcaller|]. split; [exact Hent|]. split; [exact Hnew|].
  split; [exact Hlink|]. split; [exact Hlen2|]. split; [congruence|].
  split; [unfold exec_function, exec_function_with; by rewrite Hent|].
  split; [by rewrite exec_loop_S, Hd|].
  intros ret st3 Hrun.
  apply exec_function_accounts in Hrun as (_&_&_&_&Hpar).
  - rewrite Hlen in Hpar. by apply Hpar.
  - by intros ? [= <-].
Qed.

(** C2.  Whenever a call hands control to a callee and the callee
    returns, the loop of the caller goes on in a state whose register
    file is the one the call was reached with, but for the destination
    register of the call, which holds the returned value: the argument
    marker is the same and every other register reads as before. *)
Theorem call_restores_regfile fuel parent function cost curr st callee old st1 ret st2 :
  dispatch parent function cost curr st = Invoke callee old st1 ->
  exec_function fuel (Some cost) callee st1 = Returned ret st2 ->
  exists st3,
    exec_loop (S fuel) parent function cost (Some curr) st =
      exec_loop fuel parent function cost (get_next curr) st3 /\
    nargs (regfile st3) = nargs (regfile st) /\
    regs (regfile st3) !! get_lhs curr = Some ret /\
    (forall r, r <> get_lhs curr ->
       regs (regfile st3) !! r = regs (regfile st) !! r) /\
    get_opcode curr = Call.
Proof.
  intros Hd Hrun. exists (finish_call curr old ret st2).
  cbn [exec_loop]. rewrite Hd. unfold exec_function in Hrun. rewrite Hrun.
  split; [done|].
  revert Hd. unfold dispatch.
  destruct (get_opcode curr) eqn:Hop; cbn zeta;
    repeat match goal with
           | |- context [match ?x with _ => _ end] => destruct x
           end; try discriminate.
  intros [= _ <- _]. cbn.
  split; [done|]. split; [by rewrite lookup_insert_eq|].
  split; [|done]. intros r Hr. by rewrite lookup_insert_ne.
Qed.



End Claims.

Section Table.
Context {Program Memory : Type}.
Variables (show_int : Z -> string) (show_fixed4 : Q -> string).

(** C9.  The table [inst_log_to_string] renders is the header followed
    by the sixteen rows of [inst_log_rows]: the [BrCond] row comes twice,
    every other opcode but [Assert] has one row, and [Assert] has
    none. *)
Theorem inst_log_table_rows (st : State Program Memory) :
  inst_log_to_string show_int show_fixed4 st =
    ("Instruction" ++ tab ++ "Count" ++ tab ++ "Cost" ++ endl)
    ++ render_rows show_int show_fixed4 st inst_log_rows /\
  map fst inst_log_rows =
    [Ret; BrUncond; BrCond; BrCond; Switch; Malloc; Free; Load; Store;
     Bop; Sum; Uop; Select; Call; Read; Write] /\
  length (filter (fun o => o = BrCond) (map fst inst_log_rows)) = 2 /\
  length (filter (fun o => o = Assert) (map fst inst_log_rows)) = 0 /\
  (forall o, o <> BrCond -> o <> Assert ->
             length (filter (fun o' => o' = o) (map fst inst_log_rows)) = 1) /\
  In Assert all_opcodes /\
  length inst_log_rows = LEN_OPCODE.
Proof.
  split; [reflexivity|]. split; [reflexivity|]. split; [reflexivity|].
  split; [reflexivity|]. split; [|split; [cbn; tauto|reflexivity]].
  intros o Hb Ha. by destruct o.
Qed.

End Table.

(** ** The properties at work on the small program *)


Lemma call_restores_regfile_witness :
  exists st3,
    exec_loop 51 None Demo.main 0 (Some Demo.main_call) Demo.at_call =
      exec_loop 50 None Demo.main 0 (get_next Demo.main_call) st3 /\
    nargs (regfile st3) = nargs (regfile Demo.at_call) /\
    regs (regfile st3) !! get_lhs Demo.main_call = Some 5%Z /\
    (forall r, r <> get_lhs Demo.main_call ->
       regs (regfile st3) !! r = regs (regfile Demo.at_call) !! r) /\
    get_opcode Demo.main_call = Call.
Proof.
  apply (call_restores_regfile 50 None Demo.main 0 Demo.main_call Demo.at_call
           Demo.f (regfile Demo.at_call) Demo.f_started 5 Demo.f_returned).
  - vm_compute. reflexivity.
  - vm_compute. reflexivity.
Defined.

Lemma call_failures_have_no_effect_witness :
  exec_loop 1 None Demo.main 0 (Some Demo.call_unknown) Demo.entered =
    Fatal "calling an undefined function"
      (set_error_line_num (get_line Demo.call_unknown) Demo.entered) /\
  exec_loop 1 None Demo.main 0 (Some Demo.call_three) Demo.entered =
    Fatal "calling with incorrect number of arguments"
      (set_error_line_num (get_line Demo.call_three) Demo.entered).
Proof.
  split.
  - destruct (call_failures_have_no_effect 0 None Demo.main 0 Demo.call_unknown
                Demo.entered Demo.program) as (Hnone & _); [reflexivity ..|].
    apply Hnone. reflexivity.
  - destruct (call_failures_have_no_effect 0 None Demo.main 0 Demo.call_three
                Demo.entered Demo.program) as (_ & Harity & _); [reflexivity ..|].
    apply (Harity Demo.f); [reflexivity | cbn; lia].
Defined.

Lemma branch_resolves_or_aborts_witness :
  exec_loop 1 None Demo.main 0 (Some Demo.jump_unknown) Demo.entered =
    Fatal "branching to an undefined basic block"
      (set_error_line_num (get_line Demo.jump_unknown) Demo.entered) /\
  exists st',
    dispatch None Demo.main 0 Demo.main_yes Demo.at_branch =
      Goto (Some Demo.main_out) st' /\
    exec_loop 2 None Demo.main 0 (Some Demo.main_yes) Demo.at_branch =
      exec_loop 1 None Demo.main 0 (Some Demo.main_out) st' /\
    get_cost 0 st' =
      (get_cost 0 Demo.at_branch +
       ((instr_cost 0 Demo.main_yes Demo.at_branch).1 +
        (instr_cost 0 Demo.main_yes Demo.at_branch).2))%Q /\
    instr_cost 0 Demo.main_yes Demo.at_branch = (Cost.SWITCH, 2 # 4).
Proof.
  split.
  - destruct (branch_resolves_or_aborts 0 None Demo.main 0 Demo.jump_unknown
                Demo.entered) as (Habort & _); [by left|].
    apply Habort. reflexivity.
  - destruct (branch_resolves_or_aborts 1 None Demo.main 0 Demo.main_yes
                Demo.at_branch) as (_ & Hgo & _ & _ & Hprice);
      [by (right; right)|].
    destruct (Hgo Demo.main_out) as (st' & Hd & Hrun & Hcost & _);
      [reflexivity | vm_compute; lia | vm_compute; reflexivity |].
    exists st'. split; [exact Hd|]. split; [exact Hrun|]. split; [exact Hcost|].
    destruct (Hprice eq_refl) as [_ Hp]. exact Hp.
Defined.

Lemma exec_program_runs_main_witness :
  exec_program 100 Demo.start = exec_function 100 None Demo.main Demo.start /\
  exec_program 100 Demo.headless_start =
    Fatal "missing main function" Demo.headless_start.
Proof.
  split.
  - destruct (exec_program_runs_main 100 Demo.start Demo.program) as (_ & Hmain);
      [reflexivity|].
    destruct (Hmain Demo.main) as [Heq _]; [reflexivity|exact Heq].
  - destruct (exec_program_runs_main 100 Demo.headless_start Demo.headless)
      as (Hnone & _); [reflexivity|].
    exact (Hnone eq_refl).
Defined.

Lemma brcond_cost_witness :
  exists st',
    dispatch None Demo.main 0 Demo.main_branch Demo.at_branch =
      Goto (Some Demo.main_yes) st' /\
    exec_loop 3 None Demo.main 0 (Some Demo.main_branch) Demo.at_branch =
      exec_loop 2 None Demo.main 0 (Some Demo.main_yes) st' /\
    get_cost 0 st' = (get_cost 0 Demo.at_branch + (6 + (1 # 4)))%Q /\
    cost_per_inst st' BrCond = (cost_per_inst Demo.at_branch BrCond + 6)%Q /\
    total_wait_cost st' = (total_wait_cost Demo.at_branch + (1 # 4))%Q.
Proof.
  destruct (brcond_cost 2 None Demo.main 0 Demo.main_branch Demo.at_branch
              Demo.main_yes)
    as (st' & Hd & Hrun & _ & Hcost & _ & Hcell & _ & _ & _ & Hwait & _).
  - reflexivity.
  - vm_compute. lia.
  - reflexivity.
  - vm_compute. reflexivity.
  - exists st'. repeat split; assumption.
Defined.

Lemma call_cost_and_return_witness :
  exists st1 st2,
    dispatch None Demo.main 0 Demo.main_call Demo.at_call =
      Invoke Demo.f (regfile Demo.at_call) st1 /\
    get_cost 0 st1 = (get_cost 0 Demo.at_call + (2 + inject_Z 2 * 1 + (2 # 4)))%Q /\
    nodes st2 !! length (nodes Demo.at_call) =
      Some (mkCostStack (get_fname Demo.f) 0 []) /\
    exec_function 50 (Some 0) Demo.f st1 =
      match get_first_bb Demo.f with
      | None => Fatal "missing first basic block" st2
      | Some first =>
          exec_loop 50 (Some 0) Demo.f (length (nodes Demo.at_call))
            (Some first) st2
      end /\
    exec_loop 51 None Demo.main 0 (Some Demo.main_call) Demo.at_call =
      match exec_function 50 (Some 0) Demo.f st1 with
      | Returned ret st3 =>
          exec_loop 50 None Demo.main 0 (Some Demo.main_branch)
            (set_regfile (write_reg "x" ret (regfile Demo.at_call)) st3)
      | out => out
      end.
Proof.
  destruct (call_cost_and_return 50 None Demo.main 0 Demo.main_call Demo.at_call
              Demo.program Demo.f)
    as (st1 & st2 & caller & Hd & Hcost & _ & _ & _ & _ & _ & _ & _ & _ & _ &
        Hnew & _ & _ & _ & Hact & Hrun & _).
  - reflexivity.
  - vm_compute. lia.
  - reflexivity.
  - reflexivity.
  - reflexivity.
  - vm_compute. reflexivity.
  - exists st1, st2. split; [exact Hd|]. split; [exact Hcost|].
    split; [exact Hnew|]. split; [exact Hact|exact Hrun].
Defined.


Lemma accumulator_linked_on_entry_witness :
  exists st1,
    nodes st1 !! 2 = Some (mkCostStack "e" 0 []) /\
    (exists n, nodes Demo.ended !! 0 = Some n /\
       nodes st1 !! 0 = Some (mkCostStack (fname n) (cost n) (callees n ++ [2]))) /\
    exec_function 100 (Some 0) Demo.empty_func Demo.ended =
      Fatal "missing first basic block" st1.
Proof.
  destruct (accumulator_linked_on_entry 100 (Some 0) Demo.empty_func Demo.ended)
    as (st1 & _ & Hnew & _ & [_ Hlink] & Hrun).
  - intros p [= <-]. vm_compute. lia.
  - exists st1. split; [exact Hnew|]. split; [exact Hlink|exact Hrun].
Defined.

(** * Further properties of the engine *)

Section Store.
Context {Stmt Function Program Memory : Type}.
Context `{!Graph Stmt Function Program Memory}.
Implicit Types (st : State Program Memory) (curr : Stmt).
Implicit Types (function : Function) (parent : option nat).
Implicit Types (path : list (Visit (Stmt := Stmt) (Program := Program) (Memory := Memory))).

(** Which opcode a turn of each kind had. *)
Lemma dispatch_opcode parent function cost curr st :
  match dispatch parent function cost curr st with
  | Invoke _ _ _ => get_opcode curr = Call
  | Goto _ _ => get_opcode curr <> Call /\ get_opcode curr <> Ret
  | Halt (Returned _ _) => get_opcode curr = Ret
  | Halt _ => True
  end.
Proof.
  unfold dispatch.
  destruct (get_opcode curr) eqn:Hop; cbn zeta;
    repeat first
      [ destruct (stmt_exec _ _ _ _)
      | destruct (get_bb _ _)
      | destruct (program _)
      | destruct (get_function _ _)
      | destruct (decide _)
      | destruct (update_cost_log _ _ _ _) ];
    first [done | by split].
Qed.

Lemma path_count_cons o (v : Visit (Stmt := Stmt) (Program := Program) (Memory := Memory)) path :
  path_count o (v :: path) =
  ((if decide (visit_opcode v = o) then 1 else 0) + path_count o path)%Z.
Proof.
  unfold path_count. rewrite filter_cons.
  destruct (decide (visit_opcode v = o)); cbn [length]; lia.
Qed.

Lemma path_count_app o path1 path2 :
  path_count o (path1 ++ path2) = (path_count o path1 + path_count o path2)%Z.
Proof. unfold path_count. rewrite filter_app, length_app. lia. Qed.

Lemma path_count_nonneg o path : (0 <= path_count o path)%Z.
Proof. unfold path_count. lia. Qed.

Lemma node_kept_refl parent cost q n : node_kept parent cost q n n.
Proof. by repeat split. Qed.

Lemma node_kept_trans parent cost q n1 n2 n3 :
  node_kept parent cost q n1 n2 -> node_kept parent cost q n2 n3 ->
  node_kept parent cost q n1 n3.
Proof.
  intros (Hf&Hc&Hn) (Hf'&Hc'&Hn'). split; [congruence|]. split.
  - intros Hq. rewrite Hc', Hc; done.
  - intros Hq Hp. rewrite Hn', Hn; done.
Qed.

Lemma forward_add_cost (store : list CostStack) p c :
  forward store -> forward (alter (CostStack_add_cost c) p store).
Proof.
  intros Hfw q n x Hq Hx. rewrite length_alter.
  destruct (decide (p = q)) as [->|Hne].
  - rewrite list_lookup_alter_eq in Hq.
    destruct (store !! q) as [m|] eqn:Hm; [|done].
    injection Hq as <-. by apply (Hfw q m x).
  - rewrite list_lookup_alter_ne in Hq by done. by apply (Hfw q n x).
Qed.

(** What one charge does to the store. *)
Lemma charged_store parent cost opcode b w st st1 :
  charged cost opcode b w st st1 ->
  length (nodes st1) = length (nodes st) /\
  (forward (nodes st) -> forward (nodes st1)) /\
  (forall q n, nodes st !! q = Some n ->
     exists n', nodes st1 !! q = Some n' /\ node_kept parent cost q n n') /\
  main_cost st1 = main_cost st.
Proof.
  intros Hch. pose proof (charged_nodes _ _ _ _ _ _ Hch) as Hn.
  split; [by eapply charged_length|]. split; [|split].
  - rewrite Hn. apply forward_add_cost.
  - intros q n Hq. rewrite Hn. destruct (decide (cost = q)) as [->|Hne].
    + rewrite list_lookup_alter_eq, Hq. eexists. split; [reflexivity|].
      by repeat split.
    + rewrite list_lookup_alter_ne, Hq by done. eexists. split; [reflexivity|].
      apply node_kept_refl.
  - by apply charged_books in Hch as (?&_).
Qed.

Lemma store_grows_after parent cost k path path' st st1 st' :
  Z.of_nat (length (nodes st1)) = (Z.of_nat (length (nodes st)) + k)%Z ->
  (forward (nodes st) -> forward (nodes st1)) ->
  (forall q n, nodes st !! q = Some n ->
     exists n', nodes st1 !! q = Some n' /\ node_kept parent cost q n n') ->
  main_cost st1 = main_cost st ->
  path_count Call path' = (k + path_count Call path)%Z ->
  store_grows parent cost path st1 st' ->
  store_grows parent cost path' st st'.
Proof.
  intros Hlen Hfw Hkept Hmain Hcount (Hlen'&Hfw'&Hkept'&Hmain').
  split; [lia|]. split; [auto|]. split; [|congruence].
  intros q n Hq. destruct (Hkept q n Hq) as (n1 & Hq1 & Hk1).
  destruct (Hkept' q n1 Hq1) as (n2 & Hq2 & Hk2).
  exists n2. split; [done|]. by eapply node_kept_trans.
Qed.

Lemma store_grows_refl parent cost st st' :
  nodes st' = nodes st -> main_cost st' = main_cost st ->
  store_grows parent cost [] st st'.
Proof.
  intros Hn Hm. unfold store_grows. rewrite Hn.
  split; [unfold path_count; cbn; lia|]. split; [done|]. split; [|done].
  intros q n Hq. exists n. split; [done|apply node_kept_refl].
Qed.

Lemma store_grows_propagate parent cost st :
  (forall p, parent = Some p -> p <> cost) ->
  store_grows parent cost [] st (propagate parent cost st).
Proof.
  intros Hpar. destruct parent as [p|]; [|by apply store_grows_refl].
  specialize (Hpar p eq_refl). unfold store_grows. cbn.
  rewrite length_alter. split; [unfold path_count; cbn; lia|].
  split; [apply forward_add_cost|]. split; [|done].
  intros q n Hq. destruct (decide (p = q)) as [->|Hne].
  - rewrite list_lookup_alter_eq, Hq. eexists. split; [reflexivity|].
    split; [done|]. split; [done|]. by intros _ [].
  - rewrite list_lookup_alter_ne, Hq by done. eexists. split; [reflexivity|].
    apply node_kept_refl.
Qed.

(** What entering an activation does to the store. *)
Lemma enter_store parent function st c st1 :
  enter parent function st = (c, st1) ->
  (forall p, parent = Some p -> p < length (nodes st)) ->
  c = length (nodes st) /\
  length (nodes st1) = S (length (nodes st)) /\
  (forward (nodes st) -> forward (nodes st1)) /\
  nodes st1 !! c = Some (CostStack_new (get_fname function)) /\
  (forall q n, nodes st !! q = Some n ->
     nodes st1 !! q =
       Some (if decide (parent = Some q) then CostStack_set_callee c n else n)) /\
  main_cost st1 = match parent with None => Some c | Some _ => main_cost st end.
Proof.
  unfold enter, new_CostStack. intros Hent Hpar.
  destruct parent as [p|]; injection Hent as <- <-; cbn.
  - specialize (Hpar p eq_refl).
    rewrite length_alter, length_app. cbn.
    split; [done|]. split; [lia|]. split; [|split; [|split; [|done]]].
    + intros Hfw q n x Hq Hx. rewrite length_alter, length_app. cbn.
      destruct (decide (p = q)) as [->|Hne].
      * rewrite list_lookup_alter_eq, lookup_app_l in Hq by done.
        destruct (nodes st !! q) as [m|] eqn:Hm; [|done].
        injection Hq as <-. cbn in Hx. apply in_app_iff in Hx as [Hx|[<-|[]]].
        -- specialize (Hfw q m x Hm Hx). lia.
        -- lia.
      * rewrite list_lookup_alter_ne in Hq by done.
        destruct (decide (q < length (nodes st))) as [Hlt|Hge].
        -- rewrite lookup_app_l in Hq by done.
           specialize (Hfw q n x Hq Hx). lia.
        -- rewrite lookup_app_r in Hq by lia.
           destruct (q - length (nodes st)) as [|k]; [|by destruct k].
           by injection Hq as <-.
    + rewrite list_lookup_alter_ne by lia.
      by rewrite lookup_app_r, Nat.sub_diag by lia.
    + intros q n Hq. pose proof (lookup_lt_Some _ _ _ Hq) as Hlt.
      destruct (decide (p = q)) as [->|Hne].
      * rewrite list_lookup_alter_eq, lookup_app_l, Hq by done.
        by rewrite decide_True.
      * rewrite list_lookup_alter_ne, lookup_app_l, Hq by done.
        rewrite decide_False; [done|]. by intros [= ->].
  - rewrite length_app. cbn.
    split; [done|]. split; [lia|]. split; [|split; [|split; [|done]]].
    + intros Hfw q n x Hq Hx. rewrite length_app. cbn.
      destruct (decide (q < length (nodes st))) as [Hlt|Hge].
      * rewrite lookup_app_l in Hq by done.
        specialize (Hfw q n x Hq Hx). lia.
      * rewrite lookup_app_r in Hq by lia.
        destruct (q - length (nodes st)) as [|k]; [|by destruct k].
        by injection Hq as <-.
    + by rewrite lookup_app_r, Nat.sub_diag by lia.
    + intros q n Hq. pose proof (lookup_lt_Some _ _ _ Hq) as Hlt.
      by rewrite lookup_app_l, Hq.
Qed.

Lemma exec_function_with_store loop trail parent function st st' :
  (forall parent function cost (cursor : option Stmt) st st',
      cost < length (nodes st) ->
      (forall p, parent = Some p -> p < length (nodes st) /\ p <> cost) ->
      outcome_state (loop parent function cost cursor st) = Some st' ->
      store_grows parent cost (trail parent function cost cursor st) st st') ->
  (forall p, parent = Some p -> p < length (nodes st)) ->
  outcome_state (exec_function_with loop parent function st) = Some st' ->
  activation_grows parent function
    (executed_function_with trail parent function st) st st'.
Proof.
  intros Hloop Hpar. unfold exec_function_with, executed_function_with.
  destruct (enter parent function st) as [c st1] eqn:Hent.
  destruct (enter_store _ _ _ _ _ Hent Hpar) as (->&Hlen&Hfw&Hnew&Hold&Hmain).
  destruct (get_first_bb function) as [first|].
  - intros Hrun.
    destruct (Hloop parent function (length (nodes st)) (Some first) st1 st')
      as (Hlen'&Hfw'&Hkept'&Hmain');
      [lia|intros p ->; specialize (Hpar p eq_refl); lia|done|].
    split; [lia|]. split; [auto|]. split; [|split; [|congruence]].
    + destruct (Hkept' _ _ Hnew) as (n' & Hn' & Hf & _). eauto.
    + intros q n Hq. pose proof (lookup_lt_Some _ _ _ Hq) as Hlt.
      destruct (Hkept' _ _ (Hold q n Hq)) as (n' & Hn' & Hf & Hc & Hsame).
      exists n'. split; [done|]. rewrite Hf, Hc by lia.
      destruct (decide (parent = Some q)) as [Heq|Hne]; [done|].
      repeat split; try done. intros _. apply Hsame; [lia|done].
  - intros [= <-]. split; [unfold path_count; cbn; lia|].
    split; [done|]. split; [eauto|]. split; [|done].
    intros q n Hq. rewrite (Hold q n Hq). eexists. split; [reflexivity|].
    destruct (decide (parent = Some q)); done.
Qed.

(** The store along the loop of an activation. *)
Lemma exec_loop_store fuel parent function cost (cursor : option Stmt) st st' :
  cost < length (nodes st) ->
  (forall p, parent = Some p -> p < length (nodes st) /\ p <> cost) ->
  outcome_state (exec_loop fuel parent function cost cursor st) = Some st' ->
  store_grows parent cost (executed fuel parent function cost cursor st) st st'.
Proof.
  revert parent function cost cursor st st'.
  induction fuel as [|fuel IH]; intros parent function cost cursor st st' Hc Hpar;
    [discriminate|].
  cbn [exec_loop executed]. destruct cursor as [curr|]; [|discriminate].
  pose proof (dispatch_charges parent function cost curr st) as Hd.
  pose proof (dispatch_opcode parent function cost curr st) as Hop.
  destruct (dispatch parent function cost curr st) as [out|curr' st1|callee old st1].
  - destruct out as [ret st2|msg st2| |]; try discriminate.
    + intros [= <-]. destruct Hd as (st1 & Hch & ->).
      destruct (charged_store parent _ _ _ _ _ _ Hch) as (Hlen&Hfw&Hkept&Hmain).
      eapply (store_grows_after _ _ 0 [] _ st st1);
        [lia|exact Hfw|exact Hkept|exact Hmain| |].
      * rewrite path_count_cons. unfold visit_opcode. cbn [fst snd]. rewrite Hop.
        by rewrite decide_False.
      * apply store_grows_propagate. intros p Hp. by destruct (Hpar p Hp).
    + intros [= <-]. subst st2. by apply store_grows_refl.
  - intros Hrun.
    destruct (charged_store parent _ _ _ _ _ _ Hd) as (Hlen&Hfw&Hkept&Hmain).
    eapply (store_grows_after _ _ 0 (executed fuel parent function cost curr' st1)
              _ st st1);
      [lia|exact Hfw|exact Hkept|exact Hmain| |].
    + rewrite path_count_cons. unfold visit_opcode. cbn [fst snd].
      rewrite decide_False by apply Hop. lia.
    + apply IH; [lia| |done]. intros p Hp. destruct (Hpar p Hp). lia.
  - destruct (charged_store parent _ _ _ _ _ _ Hd) as (Hlen&Hfw&Hkept&Hmain).
    pose proof (exec_function_with_store (exec_loop fuel) (executed fuel)
                  (Some cost) callee st1) as Hcallee.
    destruct (exec_function_with (exec_loop fuel) (Some cost) callee st1)
      as [r st2|msg st2| |]; try discriminate.
    + intros Hrun.
      destruct (Hcallee st2) as (Hlen2&Hfw2&_&Hkept2&Hmain2);
        [exact IH|intros ? [= <-]; lia|done|].
      pose proof (path_count_nonneg Call
                    (executed_function_with (executed fuel) (Some cost) callee st1)).
      apply IH in Hrun as Hrest; cbn [finish_call set_regfile nodes]; [|lia|].
      2:{ intros p Hp. destruct (Hpar p Hp). lia. }
      eapply (store_grows_after _ _ (1 + path_count Call
                 (executed_function_with (executed fuel) (Some cost) callee st1))
                _ _ st (finish_call curr old r st2)); [| | | | |exact Hrest].
      * cbn [finish_call set_regfile nodes]. lia.
      * cbn [finish_call set_regfile nodes]. auto.
      * cbn [finish_call set_regfile nodes]. intros q n Hq. destruct (Hkept q n Hq) as (n1 & Hq1 & Hk1).
        destruct (Hkept2 q n1 Hq1) as (n2 & Hq2 & Hf2 & Hc2 & Hs2).
        exists n2. split; [done|]. eapply node_kept_trans; [exact Hk1|].
        split; [done|]. split.
        -- intros Hne. rewrite Hc2, decide_False; [done|]. by intros [= ->].
        -- intros Hne _. apply Hs2. by intros [= ->].
      * cbn [finish_call set_regfile main_cost]. congruence.
      * rewrite path_count_cons, path_count_app. unfold visit_opcode. cbn [fst snd].
        rewrite Hop, decide_True by done. lia.
    + intros [= <-].
      destruct (Hcallee st2) as (Hlen2&Hfw2&_&Hkept2&Hmain2);
        [exact IH|intros ? [= <-]; lia|done|].
      split; [|split; [auto|split; [|cbn in *; congruence]]].
      * rewrite path_count_cons, path_count_app. unfold visit_opcode. cbn [fst snd].
        rewrite Hop, decide_True by done.
        change (path_count Call []) with 0%Z. cbn [set_regfile nodes] in *.
        lia.
      * intros q n Hq. destruct (Hkept q n Hq) as (n1 & Hq1 & Hk1).
        destruct (Hkept2 q n1 Hq1) as (n2 & Hq2 & Hf2 & Hc2 & Hs2).
        exists n2. split; [done|]. eapply node_kept_trans; [exact Hk1|].
        split; [done|]. split.
        -- intros Hne. rewrite Hc2, decide_False; [done|]. by intros [= ->].
        -- intros Hne _. apply Hs2. by intros [= ->].
Qed.

Lemma exec_function_store fuel parent function st st' :
  (forall p, parent = Some p -> p < length (nodes st)) ->
  outcome_state (exec_function fuel parent function st) = Some st' ->
  activation_grows parent function
    (executed_function_with (executed fuel) parent function st) st st'.
Proof.
  apply exec_function_with_store. intros. by apply exec_loop_store.
Qed.

End Store.

Section More.
Context {Stmt Function Program Memory : Type}.
Context `{!Graph Stmt Function Program Memory}.
Implicit Types (st : State Program Memory) (curr : Stmt).
Implicit Types (function : Function) (parent : option nat).

(** X1.  [set_program] installs a program only while none is installed:
    a second call changes nothing, so the first program stays. *)
Theorem set_program_first_wins (p q : Program) st :
  program st = None ->
  program (set_program p st) = Some p /\
  set_program q (set_program p st) = set_program p st.
Proof.
  intros Hnone. unfold set_program. rewrite Hnone. cbn. done.
Qed.

(** X3.  While the loop of an activation runs, to its return or to a
    runtime error, every accumulator that was in the store before, other
    than the activation's own and its parent's, stays exactly as it was:
    the accumulators of activations that have returned are never touched
    again. *)
Theorem earlier_accumulators_untouched fuel parent function cost
    (cursor : option Stmt) st st' q :
  cost < length (nodes st) ->
  (forall p, parent = Some p -> p < length (nodes st) /\ p <> cost) ->
  outcome_state (exec_loop fuel parent function cost cursor st) = Some st' ->
  q < length (nodes st) -> q <> cost -> parent <> Some q ->
  nodes st' !! q = nodes st !! q.
Proof.
  intros Hc Hpar Hrun Hq Hqc Hqp.
  apply exec_loop_store in Hrun as (_&_&Hkept&_); [|done..].
  destruct (lookup_lt_is_Some_2 _ _ Hq) as [n Hn].
  destruct (Hkept q n Hn) as (n' & Hn' & _ & _ & Hsame).
  by rewrite Hn', Hn, Hsame.
Qed.

(** X4.  A call that returns leaves one new callee in the caller's
    accumulator: the node made for the callee, named after the called
    function, is appended to the caller's callee list, the caller's name
    is unchanged and its cost has grown by the final cost of that node.
    The root pointer and all other earlier accumulators are as before. *)
Theorem returned_call_links_one_callee fuel p function st ret st' :
  p < length (nodes st) ->
  exec_function fuel (Some p) function st = Returned ret st' ->
  exists n n' m,
    nodes st !! p = Some n /\ nodes st' !! p = Some n' /\
    nodes st' !! length (nodes st) = Some m /\
    fname m = get_fname function /\
    fname n' = fname n /\
    callees n' = (callees n ++ [length (nodes st)])%list /\
    (cost n' == cost n + cost m)%Q /\
    main_cost st' = main_cost st /\
    forall q, q < length (nodes st) -> q <> p ->
              nodes st' !! q = nodes st !! q.
Proof.
  intros Hp Hrun.
  assert (Hpar : forall p0, Some p = Some p0 -> p0 < length (nodes st))
    by (by intros ? [= <-]).
  pose proof (exec_function_accounts _ _ _ _ _ _ Hpar Hrun) as (_&_&_&_&Hcost).
  specialize (Hcost p eq_refl).
  destruct (exec_function_store fuel (Some p) function st st' Hpar)
    as (_&_&(m&Hm&Hfm)&Hkept&Hmain); [by rewrite Hrun|].
  destruct (lookup_lt_is_Some_2 _ _ Hp) as [n Hn].
  destruct (Hkept p n Hn) as (n' & Hn' & Hf & Hc & _).
  rewrite decide_True in Hc by done.
  exists n, n', m. repeat split; try done.
  - revert Hcost. unfold get_cost. by rewrite Hn', Hn, Hm.
  - intros q Hq Hqp. destruct (lookup_lt_is_Some_2 _ _ Hq) as [k Hk].
    destruct (Hkept q k Hk) as (k' & Hk' & _ & _ & Hsame).
    rewrite Hk', Hk, Hsame; [done|]. by intros [= ->].
Qed.

(** X5.  However a run of a program with a [main] ends, in a return or in
    a runtime error, the store then holds one accumulator more than
    before for [main] and one for every call the run executed, and all
    callee pointers still point forward in the store. *)
Theorem one_accumulator_per_activation fuel st (prog : Program) main st' :
  program st = Some prog ->
  get_function prog "main" = Some main ->
  outcome_state (exec_program fuel st) = Some st' ->
  Z.of_nat (length (nodes st')) =
    (Z.of_nat (length (nodes st)) + 1 +
     path_count Call (executed_program fuel st))%Z /\
  (forward (nodes st) -> forward (nodes st')).
Proof.
  intros Hprog Hmain. unfold exec_program, executed_program.
  rewrite Hprog, Hmain. intros Hrun.
  apply exec_function_store in Hrun as (Hlen&Hfw&_); [done|discriminate].
Qed.

(** X6.  A function whose entry block starts with a return costs exactly
    [RET] plus the stall of the returned operand: its activation returns
    the operand's value, its accumulator ends with that cost and no
    callee, the register file is untouched, and a parent is charged the
    same amount. *)
Theorem return_only_function fuel parent function first st :
  let c := length (nodes st) in
  let ret := ret_get_val first 0 (regfile st) in
  get_first_bb function = Some first ->
  get_opcode first = Ret ->
  (forall p, parent = Some p -> p < length (nodes st)) ->
  (inst_count st Ret < INT_MAX)%Z ->
  exists st',
    exec_function (S fuel) parent function st = Returned ret.1 st' /\
    nodes st' !! c =
      Some (mkCostStack (get_fname function) (0 + (Cost.RET + ret.2)) []) /\
    regfile st' = regfile st /\
    inst_count st' Ret = (inst_count st Ret + 1)%Z /\
    (forall p, parent = Some p ->
       get_cost p st' = (get_cost p st + (0 + (Cost.RET + ret.2)))%Q).
Proof.
  cbn zeta. intros Hfirst Hop Hpar Hlt.
  unfold exec_function, exec_function_with.
  destruct (enter parent function st) as [c st1] eqn:Hent.
  destruct (enter_store _ _ _ _ _ Hent Hpar) as (->&Hlen&_&Hnew&Hold&_).
  pose proof (enter_inv _ _ _ _ _ Hent Hpar) as (_&_&Hzero&Hcosts&_).
  assert (Hrf : regfile st1 = regfile st).
  { revert Hent. unfold enter, new_CostStack. by destruct parent; intros [= <-]. }
  assert (Hic : inst_count st1 = inst_count st).
  { revert Hent. unfold enter, new_CostStack. by destruct parent; intros [= <-]. }
  rewrite Hfirst. cbn [exec_loop]. unfold dispatch. rewrite Hop. cbn zeta.
  cbn [regfile set_error_line_num].
  change (get_cost (length (nodes st)) (set_error_line_num (get_line first) st1))
    with (get_cost (length (nodes st)) st1).
  rewrite Hzero, Hrf.
  destruct (update_cost_log _ _ _ _) as [st2|] eqn:Hup.
  2:{ unfold update_cost_log in Hup. cbn in Hup. rewrite Hic in Hup.
      apply Z.ltb_lt in Hlt. by rewrite Hlt in Hup. }
  apply update_cost_log_Some in Hup as (_&Hrf2&_&Hn2&_&_&_&_&_&Hi2).
  cbn in Hrf2, Hn2. eexists. split; [reflexivity|].
  assert (Hc2 : nodes st2 !! length (nodes st) =
                Some (mkCostStack (get_fname function)
                        (0 + (Cost.RET + (ret_get_val first 0 (regfile st)).2)) [])).
  { by rewrite Hn2, list_lookup_alter_eq, Hnew. }
  assert (Hg2 : get_cost (length (nodes st)) st2 =
                (0 + (Cost.RET + (ret_get_val first 0 (regfile st)).2))%Q).
  { unfold get_cost. by rewrite Hc2. }
  destruct parent as [p|]; cbn.
  - specialize (Hpar p eq_refl).
    split; [by rewrite list_lookup_alter_ne by lia|].
    split; [congruence|].
    split; [rewrite Hi2, decide_True by done; cbn; by rewrite Hic|].
    intros ? [= <-]. unfold get_cost at 1. cbn.
    rewrite list_lookup_alter_eq, Hg2.
    destruct (lookup_lt_is_Some_2 _ _ Hpar) as [n Hn].
    rewrite Hn2, list_lookup_alter_ne by lia.
    specialize (Hcosts p Hpar). unfold get_cost in Hcosts.
    destruct (nodes st1 !! p) as [n1|] eqn:Hn1.
    + cbn in *. by rewrite Hcosts.
    + apply lookup_ge_None in Hn1. lia.
  - split; [done|]. split; [congruence|].
    split; [rewrite Hi2, decide_True by done; cbn; by rewrite Hic|done].
Qed.

(** X7.  A statement that is neither a terminator nor a call and has no
    successor does not raise a runtime error.  Its turn installs the
    register file and the memory its evaluation returned and charges it
    in full: base plus stall to the accumulator of the activation and to
    no other, the base cost to the cost cell of its opcode, one to the
    count of its opcode, the stall to the wait total; the turn leaves a
    null cursor, which the next turn of the loop dereferences. *)
Theorem block_without_terminator fuel parent function cost curr st b w rf mem :
  get_opcode curr <> Ret -> get_opcode curr <> BrUncond ->
  get_opcode curr <> BrCond -> get_opcode curr <> Switch ->
  get_opcode curr <> Call ->
  stmt_exec curr (get_cost cost st) (regfile st) (memory st) = ExecOk b w rf mem ->
  get_next curr = None ->
  cost < length (nodes st) ->
  (inst_count st (get_opcode curr) < INT_MAX)%Z ->
  exec_loop (S (S fuel)) parent function cost (Some curr) st = Undefined /\
  exists st1,
    dispatch parent function cost curr st = Goto None st1 /\
    regfile st1 = rf /\ memory st1 = mem /\
    error_line_num st1 = get_line curr /\
    get_cost cost st1 = (get_cost cost st + (b + w))%Q /\
    (forall q, q <> cost -> get_cost q st1 = get_cost q st) /\
    cost_per_inst st1 (get_opcode curr) =
      (cost_per_inst st (get_opcode curr) + b)%Q /\
    (forall o, o <> get_opcode curr -> cost_per_inst st1 o = cost_per_inst st o) /\
    inst_count st1 (get_opcode curr) = (inst_count st (get_opcode curr) + 1)%Z /\
    (forall o, o <> get_opcode curr -> inst_count st1 o = inst_count st o) /\
    total_wait_cost st1 = (total_wait_cost st + w)%Q.
Proof.
  intros H1 H2 H3 H4 H5 Hex Hnext Hc Hlt.
  assert (Hd : exists st1,
             dispatch parent function cost curr st = Goto None st1 /\
             regfile st1 = rf /\ memory st1 = mem /\
             error_line_num st1 = get_line curr).
  { unfold dispatch.
    destruct (get_opcode curr) eqn:Hop; try done; cbn zeta;
      cbn [regfile memory set_error_line_num];
      change (get_cost cost (set_error_line_num (get_line curr) st))
        with (get_cost cost st);
      rewrite Hex, Hnext;
      (destruct (update_cost_log _ _ _ _) as [st1|] eqn:Hup;
       [|unfold update_cost_log in Hup; cbn in Hup;
         apply Z.ltb_lt in Hlt; by rewrite Hlt in Hup]);
      apply update_cost_log_Some in Hup as (_&Hrf&Hmem&_&_&_&Hline&_);
      (eexists; split; [reflexivity|]); by repeat split. }
  destruct Hd as (st1 & Hd & Hrf & Hmem & Hline).
  split; [by rewrite exec_loop_S, Hd|].
  pose proof (dispatch_charges parent function cost curr st) as Hch.
  rewrite Hd in Hch.
  assert (Hprice : instr_cost cost curr st = (b, w)).
  { unfold instr_cost. rewrite Hex. by destruct (get_opcode curr). }
  rewrite Hprice in Hch. cbn [fst snd] in Hch.
  destruct (charged_effect _ _ _ _ _ _ Hch Hc) as (E1&E2&E3&E4&E5&E6&E7).
  exists st1. by repeat split.
Qed.

(** X8.  A call of a function that has no entry block fails with "missing
    first basic block" only after the call has been paid for: the error
    carries the line of the call, the caller's accumulator and the log
    already hold the cost of the call, and the register file is the one
    prepared for the callee, not the caller's. *)
Theorem call_of_function_without_blocks fuel parent function cost curr st
    (prog : Program) callee :
  let n := call_get_nargs curr in
  let args := call_setup_args curr (get_cost cost st) (regfile st)
                (set_nargs n (regfile st)) in
  let inst_cost := (Cost.CALL + inject_Z n * Cost.PER_ARG)%Q in
  get_opcode curr = Call ->
  cost < length (nodes st) ->
  program st = Some prog ->
  get_function prog (call_get_fname curr) = Some callee ->
  get_nargs callee = n ->
  get_first_bb callee = None ->
  (inst_count st Call < INT_MAX)%Z ->
  exists st',
    exec_loop (S fuel) parent function cost (Some curr) st =
      Fatal "missing first basic block" st' /\
    error_line_num st' = get_line curr /\
    get_cost cost st' = (get_cost cost st + (inst_cost + args.1))%Q /\
    inst_count st' Call = (inst_count st Call + 1)%Z /\
    cost_per_inst st' Call = (cost_per_inst st Call + inst_cost)%Q /\
    regfile st' = args.2 /\
    length (nodes st') = S (length (nodes st)).
Proof.
  cbn zeta. intros Hop Hc Hprog Hsome Hn Hnone Hlt.
  pose proof (dispatch_charges parent function cost curr st) as Hd.
  cbn [exec_loop]. revert Hd. unfold dispatch, instr_cost. rewrite Hop. cbn zeta.
  cbn [program regfile set_error_line_num set_regfile fst snd].
  rewrite Hprog, Hsome, Hn, decide_False by (by intros []).
  change (get_cost cost (set_regfile _ (set_error_line_num (get_line curr) st)))
    with (get_cost cost st).
  destruct (update_cost_log _ _ _ _) as [st1|] eqn:Hup.
  2:{ unfold update_cost_log in Hup. cbn in Hup.
      apply Z.ltb_lt in Hlt. by rewrite Hlt in Hup. }
  intros Hch. unfold exec_function_with.
  destruct (enter (Some cost) callee st1) as [c st2] eqn:Hent.
  rewrite Hnone. eexists. split; [reflexivity|].
  pose proof (charged_length _ _ _ _ _ _ Hch) as Hlen1.
  assert (Hpar : forall p, Some cost = Some p -> p < length (nodes st1))
    by (intros ? [= <-]; lia).
  destruct (enter_inv _ _ _ _ _ Hent Hpar) as (_&Hlen2&_&Hcosts&_).
  assert (Hsame : regfile st2 = regfile st1 /\ inst_count st2 = inst_count st1 /\
                  cost_per_inst st2 = cost_per_inst st1 /\
                  error_line_num st2 = error_line_num st1).
  { revert Hent. unfold enter, new_CostStack. by intros [= <- <-]. }
  destruct Hsame as (Hrf&Hic&Hcp&Hline).
  apply update_cost_log_Some in Hup as (_&Hrf1&_&_&_&_&Hline1&_&_&_).
  pose proof (charged_get_cost_eq _ _ _ _ _ _ Hch Hc) as Hcost.
  apply charged_books in Hch as (_&_&_&Hcp1&Hic1).
  split; [by rewrite Hline, Hline1|].
  split; [rewrite Hcosts by lia; exact Hcost|].
  split; [by rewrite Hic, Hic1, decide_True|].
  split; [by rewrite Hcp, Hcp1, decide_True|].
  split; [by rewrite Hrf, Hrf1|lia].
Qed.

End More.

Lemma set_program_first_wins_witness :
  program (set_program Demo.program (State_new 0)) = Some Demo.program /\
  set_program Demo.headless (set_program Demo.program (State_new 0)) =
    set_program Demo.program (State_new 0).
Proof.
  apply (set_program_first_wins Demo.program Demo.headless (State_new 0)).
  reflexivity.
Defined.

Lemma earlier_accumulators_untouched_witness :
  nodes Demo.ended !! 1 = nodes Demo.at_branch !! 1.
Proof.
  apply (earlier_accumulators_untouched 50 None Demo.main 0
           (Some Demo.main_branch) Demo.at_branch Demo.ended 1).
  - vm_compute. lia.
  - discriminate.
  - vm_compute. reflexivity.
  - vm_compute. lia.
  - lia.
  - discriminate.
Defined.

Lemma returned_call_links_one_callee_witness :
  exists n n' m,
    nodes Demo.f_started !! 0 = Some n /\ nodes Demo.f_returned !! 0 = Some n' /\
    nodes Demo.f_returned !! length (nodes Demo.f_started) = Some m /\
    fname m = get_fname Demo.f /\
    fname n' = fname n /\
    callees n' = (callees n ++ [length (nodes Demo.f_started)])%list /\
    (cost n' == cost n + cost m)%Q /\
    main_cost Demo.f_returned = main_cost Demo.f_started /\
    forall q, q < length (nodes Demo.f_started) -> q <> 0 ->
              nodes Demo.f_returned !! q = nodes Demo.f_started !! q.
Proof.
  apply (returned_call_links_one_callee 50 0 Demo.f Demo.f_started 5
           Demo.f_returned).
  - vm_compute. lia.
  - vm_compute. reflexivity.
Defined.

Lemma one_accumulator_per_activation_witness :
  Z.of_nat (length (nodes Demo.ended)) =
    (Z.of_nat (length (nodes Demo.start)) + 1 +
     path_count Call (executed_program 100 Demo.start))%Z /\
  (forward (nodes Demo.start) -> forward (nodes Demo.ended)).
Proof.
  apply (one_accumulator_per_activation 100 Demo.start Demo.program Demo.main
           Demo.ended).
  - reflexivity.
  - reflexivity.
  - vm_compute. reflexivity.
Defined.

Lemma return_only_function_witness :
  exists st',
    exec_function 1 (Some 0) Demo2.leaf Demo.ended =
      Returned (ret_get_val Demo.f_exit 0 (regfile Demo.ended)).1 st' /\
    nodes st' !! length (nodes Demo.ended) =
      Some (mkCostStack (get_fname Demo2.leaf)
              (0 + (Cost.RET + (ret_get_val Demo.f_exit 0 (regfile Demo.ended)).2)) []) /\
    regfile st' = regfile Demo.ended /\
    inst_count st' Ret = (inst_count Demo.ended Ret + 1)%Z /\
    (forall p, Some 0 = Some p ->
       get_cost p st' =
         (get_cost p Demo.ended +
          (0 + (Cost.RET + (ret_get_val Demo.f_exit 0 (regfile Demo.ended)).2)))%Q).
Proof.
  apply (return_only_function 0 (Some 0) Demo2.leaf Demo.f_exit Demo.ended).
  - reflexivity.
  - reflexivity.
  - intros p [= <-]. vm_compute. lia.
  - vm_compute. reflexivity.
Defined.

Lemma block_without_terminator_witness :
  exec_loop 2 None Demo.main 0 (Some Demo2.dangling) Demo.entered = Undefined /\
  exists st1,
    dispatch None Demo.main 0 Demo2.dangling Demo.entered = Goto None st1 /\
    get_cost 0 st1 =
      (get_cost 0 Demo.entered +
       (Demo.base_cost Bop + Demo.s_stall Demo2.dangling))%Q /\
    cost_per_inst st1 (get_opcode Demo2.dangling) =
      (cost_per_inst Demo.entered (get_opcode Demo2.dangling) +
       Demo.base_cost Bop)%Q /\
    inst_count st1 (get_opcode Demo2.dangling) =
      (inst_count Demo.entered (get_opcode Demo2.dangling) + 1)%Z /\
    total_wait_cost st1 =
      (total_wait_cost Demo.entered + Demo.s_stall Demo2.dangling)%Q.
Proof.
  destruct (block_without_terminator 0 None Demo.main 0 Demo2.dangling Demo.entered
              (Demo.base_cost Bop) (Demo.s_stall Demo2.dangling)
              (write_reg "t" 3 (regfile Demo.entered)) tt)
    as (Hrun & st1 & Hd & _ & _ & _ & Hcost & _ & Hcell & _ & Hcount & _ & Hwait);
    [discriminate .. | reflexivity | reflexivity | vm_compute; lia
     | vm_compute; reflexivity |].
  split; [exact Hrun|]. exists st1. repeat split; assumption.
Defined.

Lemma call_of_function_without_blocks_witness :
  exists st',
    exec_loop 1 None Demo.main_calls_empty 0 (Some Demo.call_empty)
      Demo2.hollow_entered = Fatal "missing first basic block" st' /\
    error_line_num st' = get_line Demo.call_empty /\
    get_cost 0 st' =
      (get_cost 0 Demo2.hollow_entered +
       ((Cost.CALL + inject_Z (call_get_nargs Demo.call_empty) * Cost.PER_ARG) +
        (call_setup_args Demo.call_empty (get_cost 0 Demo2.hollow_entered)
           (regfile Demo2.hollow_entered)
           (set_nargs (call_get_nargs Demo.call_empty)
              (regfile Demo2.hollow_entered))).1))%Q /\
    inst_count st' Call = (inst_count Demo2.hollow_entered Call + 1)%Z /\
    cost_per_inst st' Call =
      (cost_per_inst Demo2.hollow_entered Call +
       (Cost.CALL + inject_Z (call_get_nargs Demo.call_empty) * Cost.PER_ARG))%Q /\
    regfile st' =
      (call_setup_args Demo.call_empty (get_cost 0 Demo2.hollow_entered)
         (regfile Demo2.hollow_entered)
         (set_nargs (call_get_nargs Demo.call_empty)
            (regfile Demo2.hollow_entered))).2 /\
    length (nodes st') = S (length (nodes Demo2.hollow_entered)).
Proof.
  apply (call_of_function_without_blocks 0 None Demo.main_calls_empty 0
           Demo.call_empty Demo2.hollow_entered Demo2.hollow Demo.empty_func).
  - reflexivity.
  - vm_compute. lia.
  - reflexivity.
  - reflexivity.
  - reflexivity.
  - reflexivity.
  - vm_compute. reflexivity.
Defined.

(** ** The layout of the call tree and the cost report *)

Section Layout.
Implicit Types (store : list CostStack).

Lemma span_tiles_ind store (P : nat -> nat -> Prop)
    (P0 : list nat -> nat -> nat -> Prop) :
  (forall p n e, store !! p = Some n -> tiles store (callees n) (S p) e ->
                 P0 (callees n) (S p) e -> P p e) ->
  (forall a, P0 [] a a) ->
  (forall c cs m e, span store c m -> P c m -> tiles store cs m e ->
                    P0 cs m e -> P0 (c :: cs) c e) ->
  (forall p e, span store p e -> P p e) /\
  (forall cs a e, tiles store cs a e -> P0 cs a e).
Proof.
  intros H1 H2 H3. split; intros.
  - eapply span_mut; eauto.
  - eapply tiles_mut; eauto.
Qed.

Lemma span_tiles_bounds store :
  (forall p e, span store p e -> p < e <= length store) /\
  (forall cs a e, tiles store cs a e -> a <= length store -> a <= e <= length store).
Proof.
  apply span_tiles_ind.
  - intros p n e Hp _ IH. apply lookup_lt_Some in Hp. lia.
  - intros a. lia.
  - intros c cs m e _ IH1 _ IH2. lia.
Qed.

Lemma span_bounds store p e : span store p e -> p < e <= length store.
Proof. apply span_tiles_bounds. Qed.

Lemma tiles_bounds store cs a e :
  tiles store cs a e -> a <= length store -> a <= e <= length store.
Proof. apply span_tiles_bounds. Qed.

(** A block of the tree only depends on the nodes of the block. *)
Lemma span_tiles_ext store store' :
  (forall p e, span store p e ->
     (forall q, p <= q < e -> store' !! q = store !! q) -> span store' p e) /\
  (forall cs a e, tiles store cs a e -> a <= length store ->
     (forall q, a <= q < e -> store' !! q = store !! q) -> tiles store' cs a e).
Proof.
  apply span_tiles_ind.
  - intros p n e Hp Ht IH Hagree. pose proof (lookup_lt_Some _ _ _ Hp) as Hlt.
    pose proof (tiles_bounds _ _ _ _ Ht ltac:(lia)) as Hb.
    apply (span_node store' p n e).
    + rewrite Hagree by lia. done.
    + apply IH; [lia|]. intros q Hq. apply Hagree. lia.
  - intros a _ _. constructor.
  - intros c cs m e Hs IH1 Ht IH2 Hc Hagree.
    pose proof (span_bounds _ _ _ Hs) as Hb1.
    pose proof (tiles_bounds _ _ _ _ Ht ltac:(lia)) as Hb2.
    apply (tiles_cons store' c cs m e).
    + apply IH1. intros q Hq. apply Hagree. lia.
    + apply IH2; [lia|]. intros q Hq. apply Hagree. lia.
Qed.

Lemma span_ext store store' p e :
  span store p e -> (forall q, p <= q < e -> store' !! q = store !! q) ->
  span store' p e.
Proof. apply span_tiles_ext. Qed.

Lemma tiles_ext store store' cs a e :
  tiles store cs a e -> a <= length store ->
  (forall q, a <= q < e -> store' !! q = store !! q) -> tiles store' cs a e.
Proof. apply span_tiles_ext. Qed.

Lemma tiles_snoc store cs a m e :
  tiles store cs a m -> span store m e -> tiles store (cs ++ [m]) a e.
Proof.
  intros Ht Hs. revert cs a m Ht Hs.
  apply (span_tiles_ind store (fun _ _ => True)
           (fun cs a m => span store m e -> tiles store (cs ++ [m]) a e)).
  - done.
  - intros a Hs. cbn. apply (tiles_cons store a [] e e); [done|constructor].
  - intros c cs m e' Hsc _ _ IH Hs. cbn.
    apply (tiles_cons store c _ m e); [done|]. by apply IH.
Qed.

End Layout.

Section Blocks.
Context {Stmt Function Program Memory : Type}.
Context `{!Graph Stmt Function Program Memory}.
Implicit Types (st : State Program Memory) (curr : Stmt).
Implicit Types (function : Function) (parent : option nat).

Lemma open_block_alter (f : CostStack -> CostStack) q cost st st' :
  open_block cost st ->
  nodes st' = alter f q (nodes st) -> q <= cost ->
  (forall n, callees (f n) = callees n) ->
  open_block cost st'.
Proof.
  intros (n & Hn & Ht) Hnodes Hq Hf. unfold open_block. rewrite Hnodes, length_alter.
  pose proof (lookup_lt_Some _ _ _ Hn) as Hlt.
  exists (if decide (q = cost) then f n else n). split.
  - destruct (decide (q = cost)) as [->|Hne].
    + by rewrite list_lookup_alter_eq, Hn.
    + by rewrite list_lookup_alter_ne.
  - assert (callees (if decide (q = cost) then f n else n) = callees n) as ->
      by (by destruct (decide (q = cost))).
    eapply tiles_ext; [exact Ht|lia|].
    intros k Hk. apply list_lookup_alter_ne. lia.
Qed.

Lemma open_block_charged cost opcode b w st st1 :
  charged cost opcode b w st st1 -> open_block cost st -> open_block cost st1.
Proof.
  intros Hch Hob.
  apply (open_block_alter (CostStack_add_cost (b + w)) cost cost st st1);
    [exact Hob|by eapply charged_nodes|done|done].
Qed.

Lemma exec_function_with_span loop parent function st ret st' :
  (forall parent function cost (cursor : option Stmt) st ret st',
      cost < length (nodes st) ->
      (forall p, parent = Some p -> p < cost) ->
      open_block cost st ->
      loop parent function cost cursor st = Returned ret st' ->
      open_block cost st') ->
  (forall p, parent = Some p -> p < length (nodes st)) ->
  exec_function_with loop parent function st = Returned ret st' ->
  span (nodes st') (length (nodes st)) (length (nodes st')).
Proof.
  intros Hloop Hpar. unfold exec_function_with.
  destruct (enter parent function st) as [c st1] eqn:Hent.
  destruct (enter_store _ _ _ _ _ Hent Hpar) as (->&Hlen&_&Hnew&_&_).
  destruct (get_first_bb function) as [first|]; [|discriminate].
  intros Hrun. apply Hloop in Hrun as (n & Hn & Ht).
  - by apply (span_node _ _ n).
  - lia.
  - done.
  - exists (CostStack_new (get_fname function)). split; [done|].
    rewrite Hlen. constructor.
Qed.

(** A running activation keeps its callees' subtrees in one block at the
    end of the store. *)
Lemma exec_loop_span fuel parent function cost (cursor : option Stmt) st ret st' :
  cost < length (nodes st) ->
  (forall p, parent = Some p -> p < cost) ->
  open_block cost st ->
  exec_loop fuel parent function cost cursor st = Returned ret st' ->
  open_block cost st'.
Proof.
  revert parent function cost cursor st ret st'.
  induction fuel as [|fuel IH];
    intros parent function cost cursor st ret st' Hc Hpar Hob; [discriminate|].
  cbn [exec_loop]. destruct cursor as [curr|]; [|discriminate].
  pose proof (dispatch_charges parent function cost curr st) as Hd.
  destruct (dispatch parent function cost curr st) as [out|curr' st1|callee old st1].
  - intros ->. destruct Hd as (st1 & Hch & ->).
    apply (open_block_charged _ _ _ _ _ _ Hch) in Hob.
    destruct parent as [p|]; [|done]. cbn [propagate].
    apply (open_block_alter (CostStack_add_cost (get_cost cost st1)) p cost st1);
      [exact Hob|reflexivity| |done].
    specialize (Hpar p eq_refl). lia.
  - intros Hrun. pose proof (charged_length _ _ _ _ _ _ Hd) as Hlen.
    apply (open_block_charged _ _ _ _ _ _ Hd) in Hob.
    eapply IH; [|exact Hpar|exact Hob|exact Hrun]. lia.
  - pose proof (charged_length _ _ _ _ _ _ Hd) as Hlen.
    apply (open_block_charged _ _ _ _ _ _ Hd) in Hob.
    destruct (exec_function_with (exec_loop fuel) (Some cost) callee st1)
      as [r st2| | |] eqn:Hcallee; try discriminate.
    intros Hrun.
    assert (Hpar1 : forall p, Some cost = Some p -> p < length (nodes st1))
      by (intros ? [= <-]; lia).
    pose proof (exec_function_with_span _ _ _ _ _ _ IH Hpar1 Hcallee) as Hspan.
    destruct (exec_function_with_store (exec_loop fuel) (executed fuel)
                (Some cost) callee st1 st2) as (Hlen2&_&_&Hkept&_);
      [intros; by apply exec_loop_store|exact Hpar1|by rewrite Hcallee|].
    pose proof (span_bounds _ _ _ Hspan) as Hb.
    eapply IH; [|exact Hpar| |exact Hrun]; cbn [finish_call set_regfile nodes];
      [lia|].
    destruct Hob as (n1 & Hn1 & Ht1).
    destruct (Hkept cost n1 Hn1) as (n2 & Hn2 & _ & Hc2 & _).
    rewrite decide_True in Hc2 by done.
    exists n2. split; [done|]. rewrite Hc2.
    apply (tiles_snoc _ _ _ (length (nodes st1))); [|done].
    eapply tiles_ext; [exact Ht1|lia|].
    intros q Hq. destruct (lookup_lt_is_Some_2 (nodes st1) q ltac:(lia)) as [k Hk].
    destruct (Hkept q k Hk) as (k' & Hk' & _ & _ & Hsame).
    cbn [finish_call set_regfile nodes].
    rewrite Hk', Hk, Hsame; [done|]. intros [= ->]. lia.
Qed.

Lemma exec_function_span fuel parent function st ret st' :
  (forall p, parent = Some p -> p < length (nodes st)) ->
  exec_function fuel parent function st = Returned ret st' ->
  span (nodes st') (length (nodes st)) (length (nodes st')).
Proof.
  intros Hpar. apply exec_function_with_span; [|done].
  intros. by eapply exec_loop_span.
Qed.

(** X9.  When an activation returns, the accumulators made during it are
    its subtree, laid out in the store in the order the activations were
    entered: the node of the activation comes first, then the whole
    subtree of its first call, then that of its second call, and so on
    to the end of the store. *)
Theorem activation_subtree_is_block fuel parent function st ret st' :
  (forall p, parent = Some p -> p < length (nodes st)) ->
  exec_function fuel parent function st = Returned ret st' ->
  span (nodes st') (length (nodes st)) (length (nodes st')).
Proof. apply exec_function_span. Qed.

End Blocks.

Section Report.
Variable show_fixed4 : Q -> string.
Implicit Types (store : list CostStack).

Lemma string_app_assoc (a b c : string) : ((a ++ b) ++ c = a ++ (b ++ c))%string.
Proof.
  induction a as [|x a IH]; [done|].
  change (String x ((a ++ b) ++ c) = String x (a ++ (b ++ c)))%string.
  by rewrite IH.
Qed.

Lemma report_line_shift indent d n :
  report_line show_fixed4 (indent ++ "| ") d n =
  report_line show_fixed4 indent (S d) n.
Proof.
  unfold report_line. cbn [bars]. by rewrite !string_app_assoc.
Qed.

Lemma report_lines_shift indent depths ns :
  report_lines show_fixed4 (indent ++ "| ") depths ns =
  report_lines show_fixed4 indent (S <$> depths) ns.
Proof.
  unfold report_lines. rewrite zip_with_fmap_l. f_equal.
  apply zip_with_ext; [|done..]. intros d n. apply report_line_shift.
Qed.

Lemma report_lines_app indent depths1 depths2 ns1 ns2 :
  length depths1 = length ns1 ->
  report_lines show_fixed4 indent (depths1 ++ depths2) (ns1 ++ ns2) =
  (report_lines show_fixed4 indent depths1 ns1 ++
   report_lines show_fixed4 indent depths2 ns2)%string.
Proof.
  intros Hlen. unfold report_lines. rewrite zip_with_app by done.
  induction (zip_with (report_line show_fixed4 indent) depths1 ns1) as [|l ls IH];
    cbn; [done|]. by rewrite IH, string_app_assoc.
Qed.

Lemma slice_cons store p e n :
  store !! p = Some n -> p < e ->
  take (e - p) (drop p store) = n :: take (e - S p) (drop (S p) store).
Proof.
  intros Hp He. replace (e - p) with (S (e - S p)) by lia.
  by rewrite (drop_S _ _ _ Hp).
Qed.

Lemma slice_app store a m e :
  a <= m <= e ->
  (take (m - a) (drop a store) ++ take (e - m) (drop m store))%list =
  take (e - a) (drop a store).
Proof.
  intros Hb. replace (drop m store) with (drop (m - a) (drop a store))
    by (rewrite drop_drop; f_equal; lia).
  rewrite take_take_drop. f_equal. lia.
Qed.

Lemma slice_length store a e :
  a <= e <= length store -> length (take (e - a) (drop a store)) = e - a.
Proof. intros Hb. rewrite length_take, length_drop. lia. Qed.

Lemma string_app_nil_r (a : string) : (a ++ "")%string = a.
Proof.
  induction a as [|x a IH]; [done|].
  change (String x (a ++ "") = String x a)%string. by rewrite IH.
Qed.

(** The report of a subtree that is a block of the store has one line per
    node of the block, in the order of the store. *)
Lemma to_string_span_tiles store :
  (forall p e, span store p e ->
     exists depths,
       length depths = e - p /\ depths !! 0 = Some 0 /\
       forall indent k, e - p <= k ->
       CostStack_to_string show_fixed4 k store p indent =
         Some (report_lines show_fixed4 indent depths
                 (take (e - p) (drop p store)))) /\
  (forall cs a e, tiles store cs a e ->
     a <= length store ->
     exists depths,
       length depths = e - a /\
       forall indent k acc, e - a <= k ->
       foldl (fun ss it =>
                match ss, CostStack_to_string show_fixed4 k store it (indent ++ "| ") with
                | Some s, Some t => Some (s ++ t)%string
                | _, _ => None
                end) (Some acc) cs =
         Some (acc ++ report_lines show_fixed4 indent depths
                        (take (e - a) (drop a store)))%string).
Proof.
  apply span_tiles_ind.
  - intros p n e Hp Ht IH.
    pose proof (lookup_lt_Some _ _ _ Hp) as Hlt.
    pose proof (tiles_bounds _ _ _ _ Ht ltac:(lia)) as Hb.
    destruct (IH ltac:(lia)) as (depths & Hlen & Hfold).
    exists (0 :: depths). split; [cbn; lia|]. split; [done|].
    intros indent k Hk. destruct k as [|k]; [lia|].
    cbn [CostStack_to_string]. rewrite Hp. cbn zeta. rewrite Hfold by lia.
    rewrite (slice_cons store p e n Hp) by lia. reflexivity.
  - intros a _. exists []. split; [cbn; lia|].
    intros indent k acc _.
    rewrite Nat.sub_diag. cbn. by rewrite string_app_nil_r.
  - intros c cs m e Hs IH1 Ht IH2 Hc.
    pose proof (span_bounds _ _ _ Hs) as Hb1.
    pose proof (tiles_bounds _ _ _ _ Ht ltac:(lia)) as Hb2.
    destruct IH1 as (depths1 & Hlen1 & _ & Hc1).
    destruct (IH2 ltac:(lia)) as (depths2 & Hlen2 & Hfold).
    exists ((S <$> depths1) ++ depths2)%list. split.
    + rewrite length_app, length_fmap. lia.
    + intros indent k acc Hk. cbn [foldl].
      rewrite Hc1, report_lines_shift by lia.
      rewrite Hfold, string_app_assoc by lia. f_equal. f_equal.
      rewrite <- (slice_app store c m e) by lia.
      rewrite report_lines_app; [done|].
      rewrite length_fmap, slice_length; lia.
Qed.

Lemma to_string_span store p e :
  span store p e ->
  exists depths,
    length depths = e - p /\ depths !! 0 = Some 0 /\
    forall indent k, e - p <= k ->
      CostStack_to_string show_fixed4 k store p indent =
        Some (report_lines show_fixed4 indent depths
                (take (e - p) (drop p store))).
Proof. apply to_string_span_tiles. Qed.

End Report.

Section RunReport.
Context {Stmt Function Program Memory : Type}.
Context `{!Graph Stmt Function Program Memory}.
Variable show_fixed4 : Q -> string.

(** X10.  After a run that returns, the cost report of the root
    accumulator is defined for every budget of at least the number of
    accumulators the run made, and it has one line for each of them, in
    the order the activations were entered: the line of [main] first and
    not indented, then name and final cost of every callee behind its
    indentation.  Their number is one more than the number of calls the
    run executed. *)
Theorem cost_report_lists_activations fuel (st : State Program Memory) ret st' :
  exec_program fuel st = Returned ret st' ->
  exists root depths,
    main_cost st' = Some root /\ root = length (nodes st) /\
    Z.of_nat (length depths) =
      (1 + path_count Call (executed_program fuel st))%Z /\
    depths !! 0 = Some 0 /\
    forall k, length depths <= k ->
      CostStack_to_string show_fixed4 k (nodes st') root "" =
        Some (report_lines show_fixed4 "" depths (drop root (nodes st'))).
Proof.
  intros Hrun.
  assert (Hstate : outcome_state (exec_program fuel st) = Some st')
    by (by rewrite Hrun).
  revert Hrun Hstate. unfold exec_program, executed_program.
  destruct (program st) as [prog|]; [|discriminate].
  destruct (get_function prog "main") as [main|]; [|discriminate].
  intros Hrun Hstate.
  assert (Hpar : forall p, @None nat = Some p -> p < length (nodes st))
    by discriminate.
  pose proof (exec_function_span _ _ _ _ _ _ Hpar Hrun) as Hspan.
  apply exec_function_store in Hstate as (Hlen&_&_&_&Hmain); [|done].
  destruct (to_string_span show_fixed4 _ _ _ Hspan) as (depths & Hd & H0 & Hreport).
  pose proof (span_bounds _ _ _ Hspan) as Hb.
  exists (length (nodes st)), depths.
  split; [done|]. split; [done|]. split; [lia|]. split; [done|].
  intros k Hk. rewrite Hreport by lia. by rewrite take_ge by (rewrite length_drop; lia).
Qed.

End RunReport.

Lemma activation_subtree_is_block_witness :
  span (nodes Demo.f_returned) (length (nodes Demo.f_started))
    (length (nodes Demo.f_returned)).
Proof.
  apply (activation_subtree_is_block 50 (Some 0) Demo.f Demo.f_started 5
           Demo.f_returned).
  - intros p [= <-]. vm_compute. lia.
  - vm_compute. reflexivity.
Defined.

Lemma cost_report_lists_activations_witness :
  exists root depths,
    main_cost Demo.ended = Some root /\ root = length (nodes Demo.start) /\
    Z.of_nat (length depths) =
      (1 + path_count Call (executed_program 100 Demo.start))%Z /\
    depths !! 0 = Some 0 /\
    forall k, length depths <= k ->
      CostStack_to_string (fun _ => "?") k (nodes Demo.ended) root "" =
        Some (report_lines (fun _ => "?") "" depths (drop root (nodes Demo.ended))).
Proof.
  apply (cost_report_lists_activations (fun _ => "?") 100 Demo.start 5 Demo.ended).
  vm_compute. reflexivity.
Defined.

(** * The engine in doubles *)


(** ** The accumulators in the arithmetic of the source *)

Section Ledger.
Context {Stmt Function Program Memory : Type}.
Context `{!Graph Stmt Function Program Memory}.
Variable rnd : Q -> Q.
Implicit Types (st : State Program Memory) (curr : Stmt).
Implicit Types (function : Function) (parent : option nat).








(** A rounding that changes no number leaves the engine as it is
    without rounding. *)
Section Pointwise.
Hypothesis rnd_exact : forall q, rnd q = q.










End Pointwise.



End Ledger.

(** The rounding [binary64] on the operations of the run of [Sums], and
    the doubles of the machine on the same operations: the literals 5.2
    and 1.2, the accumulator of [main] as the source adds it up, and the
    sum along the path. *)
Lemma binary64_on_the_run :
  binary64 Cost.SUM = double_value 0x1.4cccccccccccdp+2 /\
  binary64 Cost.TERNARY = double_value 0x1.3333333333333p+0 /\
  get_cost_value Sums.ended64 =
    Some (double_value
            (((0x1.4cccccccccccdp+2 + 2) + ((5 + 0x1.3333333333333p+0) + 1)) + 1)%float) /\
  Sums.path_sum64 =
    double_value
      (0x1.4cccccccccccdp+2 + 2 + 5 + 0x1.3333333333333p+0 + 1 + 1)%float.
Proof. repeat split; vm_compute; reflexivity. Qed.


